(** * uap-c: the string interner of [src/unique_strings.c]

    A shallow embedding of the C code and the properties of it that the
    specification states.

    Target: x86-64, LP64, little endian, [char] signed (the platform the
    project is built for): [size_t] is 64 bits wide, [uint32_t] and [int]
    are 32 bits wide, a conversion to a narrower integer type keeps the low
    bits.

    Memory:
    - a block obtained from malloc/realloc is an [allocation]: its address
      and the bytes it holds.  A block is owned by exactly one pointer of
      the program, so it is stored where that pointer is stored;
    - a [const char *] is a [char_ptr]: an address and the bytes from that
      address to the end of the block it points into.  Reading past the end
      of a block is a [Fault];
    - a chain of [unique_string_node]s linked by [next] is the list of its
      nodes, the null pointer being the empty list;
    - [struct unique_strings_t] objects live in a [gmap] from addresses,
      because handles refer back to them ([parent]) without owning them;
    - malloc, calloc and realloc are taken to succeed (the code never tests
      what realloc and calloc return).  The address realloc picks and the
      content of the bytes it adds are left open: they are the fields of
      the class [allocator], and what is proved holds for every instance;
    - the string passed to [unique_strings_add] is the caller's: it is a
      view of its own and does not lie in the arena.

    The functions that [free] return, besides their result, the number of
    blocks they hand back to the allocator. *)

From Stdlib Require Import ZArith List Lia Bool.
From Stdlib Require Import Strings.Byte.
From stdpp Require Import base option list gmap.
Import ListNotations.

Local Open Scope Z_scope.

(** ** Faults and the error monad *)

Inductive fault : Type :=
| NullDeref      (* a null pointer is dereferenced *)
| OutOfBounds    (* an access past the end of a block *)
| WildPointer.   (* a pointer to no live object is dereferenced *)

Inductive result (A : Type) : Type :=
| Ok (a : A)
| Fault (f : fault).
Arguments Ok {A} a.
Arguments Fault {A} f.

#[global] Instance result_ret : MRet result := @Ok.
#[global] Instance result_bind : MBind result := fun A B k r =>
  match r with
  | Ok a => k a
  | Fault f => Fault f
  end.

Definition of_option {A : Type} (f : fault) (o : option A) : result A :=
  match o with
  | Some a => Ok a
  | None => Fault f
  end.

(** ** Machine integers *)

Definition size_max : Z := 2 ^ 64.
Definition wrap64 (z : Z) : Z := z mod size_max.     (* size_t arithmetic *)
Definition u32 (z : Z) : Z := z mod 2 ^ 32.          (* uint32_t arithmetic *)
Definition to_int (z : Z) : Z :=                     (* conversion to int *)
  let w := z mod 2 ^ 32 in
  if w <? 2 ^ 31 then w else w - 2 ^ 32.

Definition uchar (b : byte) : Z := Z.of_N (Byte.to_N b).
Definition schar (b : byte) : Z :=                   (* a char read as an int *)
  if uchar b <? 128 then uchar b else uchar b - 256.

Definition is_nul (b : byte) : bool := Byte.eqb b x00.

(** ** The C library on strings *)

Definition load (v : list byte) (i : nat) : result byte :=
  of_option OutOfBounds (v !! i).

Fixpoint strlen (v : list byte) : result Z :=
  match v with
  | [] => Fault OutOfBounds
  | c :: v' => if is_nul c then Ok 0 else n ← strlen v'; Ok (n + 1)
  end.

Fixpoint strcmp (a b : list byte) : result Z :=
  match a, b with
  | c1 :: a', c2 :: b' =>
      if Byte.eqb c1 c2
      then (if is_nul c1 then Ok 0 else strcmp a' b')
      else Ok (uchar c1 - uchar c2)
  | _, _ => Fault OutOfBounds
  end.

(** The string a [char *] denotes: the bytes before the first NUL. *)
Fixpoint cstring (v : list byte) : result (list byte) :=
  match v with
  | [] => Fault OutOfBounds
  | c :: v' => if is_nul c then Ok [] else s ← cstring v'; Ok (c :: s)
  end.

(** ** Content hash *)

Definition MURMUR_SEED : Z := 0xf9a025a4.
Definition UNIQUE_STRING_BUCKETS : Z := 32.

Definition murmur_m : Z := 0x5bd1e995.
Definition murmur_r : Z := 24.

(** [*(uint32_t* )data] on a little-endian machine. *)
Definition load_u32 (b0 b1 b2 b3 : byte) : Z :=
  uchar b0 + uchar b1 * 2 ^ 8 + uchar b2 * 2 ^ 16 + uchar b3 * 2 ^ 24.

(** One turn of the [while (len >= 4)] loop. *)
Definition murmur_mix (h k : Z) : Z :=
  let k := u32 (k * murmur_m) in
  let k := Z.lxor k (Z.shiftr k murmur_r) in
  let k := u32 (k * murmur_m) in
  let h := u32 (h * murmur_m) in
  Z.lxor h k.

Fixpoint murmur_words (data : list byte) (len h : Z)
  : result (list byte * Z * Z) :=
  if 4 <=? len then
    match data with
    | b0 :: b1 :: b2 :: b3 :: rest =>
        murmur_words rest (len - 4) (murmur_mix h (load_u32 b0 b1 b2 b3))
    | _ => Fault OutOfBounds
    end
  else Ok (data, len, h).

(** The [switch (len)] with its fall-throughs: case 3 runs all four
    statements, case 2 the last three, case 1 the last two, and every other
    value only [h *= m]. *)
Definition murmur_tail (data : list byte) (len h : Z) : result Z :=
  h ← (if len =? 3
        then c ← load data 2; Ok (Z.lxor h (u32 (schar c * 2 ^ 16)))
        else Ok h);
  h ← (if (len =? 3) || (len =? 2)
        then c ← load data 1; Ok (Z.lxor h (u32 (schar c * 2 ^ 8)))
        else Ok h);
  h ← (if (len =? 3) || (len =? 2) || (len =? 1)
        then c ← load data 0; Ok (Z.lxor h (u32 (schar c)))
        else Ok h);
  Ok (u32 (h * murmur_m)).

Definition murmur_final (h : Z) : Z :=
  let h := Z.lxor h (Z.shiftr h 13) in
  let h := u32 (h * murmur_m) in
  Z.lxor h (Z.shiftr h 15).

Definition hash_murmur2 (data : list byte) (len : Z) (seed : Z) : result Z :=
  let h := Z.lxor seed (u32 len) in
  '(data, len, h) ← murmur_words data len h;
  h ← murmur_tail data len h;
  Ok (murmur_final h).

Record string_hash_pair_t : Type := {
  pair_hash : Z;
  str : list byte
}.

Definition _string_hash_pair_prepare (s : list byte) : result string_hash_pair_t :=
  n ← strlen s;
  h ← hash_murmur2 s (to_int n) MURMUR_SEED;
  Ok {| pair_hash := h; str := s |}.

Definition _get_bucket_index (pair : string_hash_pair_t) : Z :=
  pair_hash pair mod UNIQUE_STRING_BUCKETS.

(** The digest of a string, from its bytes alone. *)
Definition digest (s : list byte) : result Z :=
  hash_murmur2 s (to_int (Z.of_nat (length s))) MURMUR_SEED.

Definition is_u32 (z : Z) : Prop := 0 <= z < 2 ^ 32.

(** ** Data model *)

(** A block of the C heap holding [char]s: where it is and what it holds.
    The null pointer is the block at address 0 with no byte. *)
Record allocation : Type := {
  base : Z;
  bytes : list byte
}.

Definition null : allocation := {| base := 0; bytes := [] |}.

(** A [const char *]: an address, and the bytes that can be read from it. *)
Record char_ptr : Type := {
  address : Z;
  view : list byte
}.

Record buffer_t : Type := {
  used : Z;
  capacity : Z;
  data : allocation
}.

(** Declared in [uap/unique_strings.h]; the fields are those [buffer_alloc]
    initialises.  [parent] is the address of the buffer the handle was cut
    from, which is the address of the [unique_strings_t] it is the first
    member of. *)
Record unique_string_handle_t : Type := {
  addr : Z;
  parent : Z
}.

(** [next] is the tail of the list the node is the head of. *)
Record unique_string_node : Type := {
  hash : Z;
  buffer_ptr : unique_string_handle_t
}.

Abbreviation chain := (list unique_string_node).

(** [buckets] is [None] when the pointer is null, and otherwise the array it
    points to. *)
Record unique_strings_t : Type := {
  buffer : buffer_t;
  buckets : option (list chain)
}.

Abbreviation heap := (gmap Z unique_strings_t).

Definition deref (hp : heap) (p : Z) : result unique_strings_t :=
  if p =? 0 then Fault NullDeref else of_option WildPointer (hp !! p).

(** ** The managed growable buffer *)

Definition memcpy (dst : allocation) (off : Z) (src : list byte) (n : Z)
  : result allocation :=
  if (0 <=? off) && (n <=? Z.of_nat (length src))
     && (off + n <=? Z.of_nat (length (bytes dst)))
  then Ok {| base := base dst;
             bytes := take (Z.to_nat off) (bytes dst)
                      ++ take (Z.to_nat n) src
                      ++ drop (Z.to_nat (off + n)) (bytes dst) |}
  else Fault OutOfBounds.

(** What the C library decides: the address of a resized block, given the
    old address and the new size, and the content of byte [i] of a block
    when realloc adds it. *)
Class allocator : Type := {
  realloc_addr : Z -> Z -> Z;
  junk : nat -> byte
}.

Section Allocator.

Context `{libc : !allocator}.

Definition realloc (a : allocation) (size : Z) : allocation :=
  {| base := realloc_addr (base a) size;
     bytes := take (Z.to_nat size) (bytes a)
              ++ map junk (seq (length (bytes a))
                               (Z.to_nat size - length (bytes a))) |}.

(** [self] is the value of the pointer [buffer]. *)
Definition buffer_alloc (self : Z) (b : buffer_t) (size : Z)
  : buffer_t * unique_string_handle_t :=
  let b :=
    if wrap64 (used b + size) >=? capacity b then
      let c := wrap64 (capacity b + wrap64 (1024 * (size / 1024 + 1))) in
      {| used := used b; capacity := c; data := realloc (data b) c |}
    else b in
  let ptr := {| addr := used b; parent := self |} in
  ({| used := wrap64 (used b + size); capacity := capacity b; data := data b |},
   ptr).

Definition buffer_compact (b : buffer_t) : buffer_t :=
  {| used := used b; capacity := used b; data := realloc (data b) (used b) |}.

(** ** The interner *)

(** [calloc] zeroes the object: a null [data], an array of 32 null chains.
    [p] is the address calloc returns for the object. *)
Definition calloc_unique_strings_t : unique_strings_t :=
  {| buffer := {| used := 0; capacity := 0; data := null |};
     buckets := Some (replicate (Z.to_nat UNIQUE_STRING_BUCKETS) []) |}.

Definition unique_strings_create (p : Z) (hp : heap) : heap :=
  <[p := calloc_unique_strings_t]> hp.

Definition unique_strings_get (hp : heap) (h : unique_string_handle_t)
  : result char_ptr :=
  us ← deref hp (parent h);
  let d := data (buffer us) in
  Ok {| address := base d + addr h;
        view := drop (Z.to_nat (addr h)) (bytes d) |}.

(** The [while (iter)] loop of [_unique_strings_find_node].  [idx] is the
    position of [iter] in the chain of the bucket and [node] the value of
    [*node], a position in that chain as well. *)
Fixpoint find_node_loop (hp : heap) (pair : string_hash_pair_t)
    (iter : chain) (idx : nat) (node : option nat)
  : result (bool * option nat) :=
  match iter with
  | [] => Ok (false, node)
  | it :: next =>
      let node := Some idx in
      same ← (if hash it =? pair_hash pair
              then p ← unique_strings_get hp (buffer_ptr it);
                   c ← strcmp (view p) (str pair);
                   Ok (c =? 0)
              else Ok false);
      if same : bool then Ok (true, node)
      else if hash it <? pair_hash pair then Ok (false, node)
      else find_node_loop hp pair next (S idx) node
  end.

Definition bucket_of (us : unique_strings_t) (i : Z) : result chain :=
  tbl ← of_option NullDeref (buckets us);
  of_option OutOfBounds (tbl !! Z.to_nat i).

Definition _unique_strings_find_node (hp : heap) (us : Z)
    (pair : string_hash_pair_t) : result (bool * option nat) :=
  let bucket_id := _get_bucket_index pair in
  u ← deref hp us;
  iter ← bucket_of u bucket_id;
  find_node_loop hp pair iter 0%nat None.

(** malloc is taken to succeed, so the [if (node)] branch is the one that
    runs.  [self] is the value of the pointer [buffer]: the parent of the
    new handle is this buffer, and [_unique_strings_get] on the handle is
    the address [addr h] bytes into its block. *)
Definition unique_string_node_create (self : Z) (pair : string_hash_pair_t)
    (b : buffer_t) : result (unique_string_node * buffer_t) :=
  n ← strlen (str pair);
  let '(b, h) := buffer_alloc self b (wrap64 (n + 1)) in
  length ← strlen (str pair);
  d ← memcpy (data b) (addr h) (str pair) (wrap64 (length + 1));
  Ok ({| hash := pair_hash pair; buffer_ptr := h |},
      {| used := used b; capacity := capacity b; data := d |}).

Definition unique_strings_add (us : Z) (s : list byte) (hp : heap)
  : result (unique_string_handle_t * heap) :=
  pair ← _string_hash_pair_prepare s;
  '(ok, found) ← _unique_strings_find_node hp us pair;
  u ← deref hp us;
  if negb ok then
    '(new_node, b) ← unique_string_node_create us pair (buffer u);
    tbl ← of_option NullDeref (buckets u);
    let i := Z.to_nat (_get_bucket_index pair) in
    c ← of_option OutOfBounds (tbl !! i);
    c' ← match found with
         | Some k =>
             _ ← of_option WildPointer (c !! k);
             Ok (take (S k) c ++ new_node :: drop (S k) c)
         | None => Ok [new_node]
         end;
    Ok (buffer_ptr new_node,
        <[us := {| buffer := b; buckets := Some (<[i := c']> tbl) |}]> hp)
  else
    k ← of_option NullDeref found;
    c ← bucket_of u (_get_bucket_index pair);
    n ← of_option WildPointer (c !! k);
    Ok (buffer_ptr n, hp).

(** The number returned counts the calls of [free] on a non-null pointer. *)
Fixpoint _unique_string_free_nodes (node : chain) : result nat :=
  match node with
  | [] => Fault NullDeref
  | _ :: next =>
      k ← match next with
          | [] => Ok 0%nat
          | _ :: _ => _unique_string_free_nodes next
          end;
      Ok (S k)
  end.

(** The [for] loop of [_unique_string_free_buckets], at index [i] with
    [turns] turns to go. *)
Fixpoint free_buckets_loop (tbl : list chain) (i turns : nat) : result nat :=
  match turns with
  | O => Ok 0%nat
  | S turns =>
      c ← of_option OutOfBounds (tbl !! i);
      j ← match c with
          | [] => Ok 0%nat
          | _ :: _ => _unique_string_free_nodes c
          end;
      k ← free_buckets_loop tbl (S i) turns;
      Ok (j + k)%nat
  end.

Definition _unique_string_free_buckets (us : unique_strings_t)
  : result (unique_strings_t * nat) :=
  k ← match buckets us with
      | Some tbl =>
          k ← free_buckets_loop tbl 0 (Z.to_nat UNIQUE_STRING_BUCKETS);
          Ok (S k)
      | None => Ok 0%nat
      end;
  Ok ({| buffer := buffer us; buckets := None |}, k).

(** [free] of a null pointer does nothing. *)
Definition free_data (a : allocation) : nat :=
  if base a =? 0 then 0%nat else 1%nat.

Definition buffer_clear (b : buffer_t) : buffer_t * nat :=
  ({| used := 0; capacity := 0; data := null |}, free_data (data b)).

(** The object itself is freed last: it leaves the heap. *)
Definition unique_strings_destroy (us : Z) (hp : heap) : result (heap * nat) :=
  if us =? 0 then Ok (hp, 0%nat)
  else
    u ← deref hp us;
    '(u, k) ← _unique_string_free_buckets u;
    let '(_, k') := buffer_clear (buffer u) in
    Ok (delete us hp, S (k + k')).

Definition unique_strings_freeze (us : Z) (hp : heap) : result (heap * nat) :=
  u ← deref hp us;
  '(u, k) ← _unique_string_free_buckets u;
  Ok (<[us := {| buffer := buffer_compact (buffer u); buckets := buckets u |}]> hp, k).

Definition unique_strings_owns (hp : heap) (us : Z) (s : char_ptr) : result bool :=
  u ← deref hp us;
  let b := buffer u in
  Ok ((base (data b) <=? address s) && (address s <? base (data b) + used b)).

(** What the caller reads through the pointer [unique_strings_get] returns. *)
Definition get_string (hp : heap) (h : unique_string_handle_t)
  : result (list byte) :=
  p ← unique_strings_get hp h;
  cstring (view p).

(** ** Sequences of calls *)

Inductive op : Type :=
| Add (v : list byte)
| Freeze.

Definition step (us : Z) (o : op) (hp : heap) : result heap :=
  match o with
  | Add v => '(_, hp) ← unique_strings_add us v hp; Ok hp
  | Freeze => '(hp, _) ← unique_strings_freeze us hp; Ok hp
  end.

Fixpoint run (us : Z) (ops : list op) (hp : heap) : result heap :=
  match ops with
  | [] => Ok hp
  | o :: ops => hp ← step us o hp; run us ops hp
  end.

(** [add("a")], [add("c")], [add("c")] on a new interner at address 4096,
    then a read through the handles of the two last calls.  Both strings
    fall into bucket 18 and the digest of "a" is the smaller one. *)
Definition add_a_c_c
  : result (unique_string_handle_t * unique_string_handle_t
            * list byte * list byte) :=
  let hp := unique_strings_create 4096 ∅ in
  '(_, hp) ← unique_strings_add 4096 [x61; x00] hp;
  '(h2, hp) ← unique_strings_add 4096 [x63; x00] hp;
  '(h3, hp) ← unique_strings_add 4096 [x63; x00] hp;
  s2 ← get_string hp h2;
  s3 ← get_string hp h3;
  Ok (h2, h3, s2, s3).

End Allocator.

(** ** The field keys of the test files *)

(** [MAKE_FOURCC(a,b,c,d)], on [char]s promoted to [int].  The operands are
    between -128 and 127, so no shift leaves the range of [int]. *)
Definition MAKE_FOURCC (a b c d : Z) : Z :=
  Z.lor (Z.lor (Z.lor a (Z.shiftl b 8)) (Z.shiftl c 16)) (Z.shiftl d 24).

(** [MAKE_FOURCC(str[0], str[1], str[2], str[3])]. *)
Definition fourcc_at (s : list byte) : result Z :=
  c0 ← load s 0;
  c1 ← load s 1;
  c2 ← load s 2;
  c3 ← load s 3;
  Ok (MAKE_FOURCC (schar c0) (schar c1) (schar c2) (schar c3)).

(** The case labels: the four characters of a key. *)
Definition fourcc_fami : Z := MAKE_FOURCC 102 97 109 105.   (* 'f','a','m','i' *)
Definition fourcc_majo : Z := MAKE_FOURCC 109 97 106 111.   (* 'm','a','j','o' *)
Definition fourcc_mino : Z := MAKE_FOURCC 109 105 110 111.  (* 'm','i','n','o' *)
Definition fourcc_patc : Z := MAKE_FOURCC 112 97 116 99.    (* 'p','a','t','c' *)
Definition fourcc_bran : Z := MAKE_FOURCC 98 114 97 110.    (* 'b','r','a','n' *)
Definition fourcc_mode : Z := MAKE_FOURCC 109 111 100 101.  (* 'm','o','d','e' *)

Definition get_field_index_for_ua_test (s : list byte) : result Z :=
  k ← fourcc_at s;
  if k =? fourcc_fami then Ok 1
  else if k =? fourcc_majo then Ok 2
  else if k =? fourcc_mino then Ok 3
  else if k =? fourcc_patc then n ← strlen s; Ok (if n <? 7 then 4 else 5)
  else Ok (-1).

Definition get_field_index_for_os_test (s : list byte) : result Z :=
  k ← fourcc_at s;
  if k =? fourcc_fami then Ok 1
  else if k =? fourcc_majo then Ok 2
  else if k =? fourcc_mino then Ok 3
  else if k =? fourcc_patc then n ← strlen s; Ok (if n <? 7 then 4 else 5)
  else Ok (-1).

Definition get_field_index_for_devices_test (s : list byte) : result Z :=
  k ← fourcc_at s;
  if k =? fourcc_fami then Ok 1
  else if k =? fourcc_bran then Ok 2
  else if k =? fourcc_mode then Ok 3
  else Ok (-1).

(** ** Invariants *)

(** The invariant of a buffer: [used] bytes of the [capacity] the block has. *)
Definition buffer_wf (b : buffer_t) : Prop :=
  0 <= used b <= capacity b
  /\ capacity b < size_max
  /\ Z.of_nat (length (bytes (data b))) = capacity b.

(** The string [s] and its terminator are stored at offset [off], within the
    used part of the buffer. *)
Definition holds (b : buffer_t) (off : Z) (s : list byte) : Prop :=
  0 <= off
  /\ off + Z.of_nat (length s) + 1 <= used b
  /\ cstring (drop (Z.to_nat off) (bytes (data b))) = Ok s.

(** [b'] has the used bytes of [b] where [b] has them. *)
Definition extends (b b' : buffer_t) : Prop :=
  used b <= used b'
  /\ take (Z.to_nat (used b)) (bytes (data b'))
     = take (Z.to_nat (used b)) (bytes (data b)).

(** A node of the interner at address [self]: its handle names a string
    stored in the buffer of that interner. *)
Definition node_wf (self : Z) (b : buffer_t) (n : unique_string_node) : Prop :=
  parent (buffer_ptr n) = self /\ exists s, holds b (addr (buffer_ptr n)) s.

(** The invariant of the interner at address [self]. *)
Definition unique_strings_wf (self : Z) (us : unique_strings_t) : Prop :=
  buffer_wf (buffer us)
  /\ forall tbl, buckets us = Some tbl ->
       length tbl = Z.to_nat UNIQUE_STRING_BUCKETS
       /\ Forall (Forall (node_wf self (buffer us))) tbl.

(** The test [_unique_strings_find_node] makes on an entry: same digest and
    same bytes as the string looked for. *)
Definition entry_matches (hp : heap) (pair : string_hash_pair_t)
    (n : unique_string_node) : Prop :=
  hash n = pair_hash pair
  /\ exists s, get_string hp (buffer_ptr n) = Ok s /\ cstring (str pair) = Ok s.

(** The blocks the index is made of: the bucket table and one per node. *)
Definition index_blocks (us : unique_strings_t) : nat :=
  match buckets us with
  | Some tbl => S (length (concat tbl))
  | None => 0%nat
  end.

Definition table_ok (us : unique_strings_t) : Prop :=
  forall tbl, buckets us = Some tbl -> length tbl = Z.to_nat UNIQUE_STRING_BUCKETS.

(** An upper bound of what the calls add to the capacity of the arena. *)
Fixpoint growth (ops : list op) : Z :=
  match ops with
  | [] => 0
  | Add v :: ops =>
      match strlen v with
      | Ok n => n + 1025
      | Fault _ => 0
      end + growth ops
  | Freeze :: ops => growth ops
  end.

(** Every string passed is NUL-terminated. *)
Definition terminated (ops : list op) : Prop :=
  Forall (fun o => match o with
                   | Add v => exists s, cstring v = Ok s
                   | Freeze => True
                   end) ops.

(** No [Add] follows a [Freeze]; [building] tells whether the index is
    there at the start. *)
Fixpoint lifecycle (building : bool) (ops : list op) : bool :=
  match ops with
  | [] => true
  | Add _ :: ops => building && lifecycle building ops
  | Freeze :: ops => lifecycle false ops
  end.

Definition is_building (us : unique_strings_t) : bool :=
  match buckets us with
  | Some _ => true
  | None => false
  end.




(** The digests of a chain do not increase from one entry to the next. *)
Definition chain_sorted (c : chain) : Prop :=
  forall i j m n, (i < j)%nat -> c !! i = Some m -> c !! j = Some n ->
    hash n <= hash m.

(** ** Examples *)

(** An allocator for the examples: every block is placed at address 65536
    and the bytes realloc adds hold 0xaa.  The interner is at address
    4096. *)
#[global] Instance example_allocator : allocator :=
  {| realloc_addr := fun _ _ => 65536; junk := fun _ => xaa |}.

(** The buffer of a new interner, and a buffer with 1000 bytes used of
    1024 (what [add] of a string of 999 bytes makes of the first). *)
Definition new_buffer : buffer_t :=
  {| used := 0; capacity := 0; data := null |}.

Definition example_buffer : buffer_t :=
  {| used := 1000; capacity := 1024;
     data := {| base := 65536; bytes := replicate 1024 x61 |} |}.

(** [get(add("a"))] after [freeze()] on a new interner. *)
Definition example_frozen_roundtrip : result (list byte) :=
  '(hp, _) ← unique_strings_freeze 4096 (unique_strings_create 4096 ∅);
  '(h, hp) ← unique_strings_add 4096 [x61; x00] hp;
  get_string hp h.

(** [add("a")], [freeze()], [add("a")] on a new interner. *)
Definition example_add_freeze_add
  : result (unique_string_handle_t * unique_string_handle_t) :=
  '(h1, hp) ← unique_strings_add 4096 [x61; x00] (unique_strings_create 4096 ∅);
  '(hp, _) ← unique_strings_freeze 4096 hp;
  '(h2, hp) ← unique_strings_add 4096 [x61; x00] hp;
  Ok (h1, h2).

(** The handle and the heap after [add("a")] on a new interner. *)
Definition example_added : unique_string_handle_t * gmap Z unique_strings_t :=
  match unique_strings_add 4096 [x61; x00] (unique_strings_create 4096 ∅) with
  | Ok r => r
  | Fault _ => ({| addr := 0; parent := 0 |}, ∅)
  end.

(** [add("b")], [add] of a string of 2000 bytes, which does not fit the
    first kilobyte of the arena, and then [freeze()]. *)
Definition example_adds : list op :=
  [Add [x62; x00]; Add (replicate 2000 x62 ++ [x00])].

Definition example_ops : list op := example_adds ++ [Freeze].

(** The heap these two [add]s reach from a new interner. *)
Definition example_reached : gmap Z unique_strings_t :=
  match run 4096 example_adds (unique_strings_create 4096 ∅) with
  | Ok hp => hp
  | Fault _ => ∅
  end.

(** The heap the two [add]s reach after [add("a")], and [add("c")] there. *)
Definition example_later : gmap Z unique_strings_t :=
  match run 4096 example_adds (snd example_added) with
  | Ok hp => hp
  | Fault _ => ∅
  end.

Definition example_added_c : unique_string_handle_t * gmap Z unique_strings_t :=
  match unique_strings_add 4096 [x63; x00] example_later with
  | Ok r => r
  | Fault _ => ({| addr := 0; parent := 0 |}, ∅)
  end.

(** Two interners with an arena each. *)
Definition example_interner (at_ : Z) : unique_strings_t :=
  {| buffer := {| used := 2; capacity := 4;
                  data := {| base := at_; bytes := [x61; x00; xaa; xaa] |} |};
     buckets := None |}.

Definition example_two : gmap Z unique_strings_t :=
  <[4096 := example_interner 65536]> (<[8192 := example_interner 131072]> ∅).

(** The heap a sequence of calls reaches from a new interner at address
    4096, the interner in it and its bucket table. *)
Definition example_state (ops : list op) : gmap Z unique_strings_t :=
  match run 4096 ops (unique_strings_create 4096 ∅) with
  | Ok hp => hp
  | Fault _ => ∅
  end.

Definition example_us (ops : list op) : unique_strings_t :=
  match example_state ops !! 4096 with
  | Some us => us
  | None => calloc_unique_strings_t
  end.

Definition example_table (ops : list op) : list (list unique_string_node) :=
  match buckets (example_us ops) with
  | Some tbl => tbl
  | None => []
  end.

(** The entries [add("a")] and [add("c")] make on a new interner. *)
Definition example_node_a : unique_string_node :=
  {| hash := 3270753234; buffer_ptr := {| addr := 0; parent := 4096 |} |}.

Definition example_node_c : unique_string_node :=
  {| hash := 3852019730; buffer_ptr := {| addr := 0; parent := 4096 |} |}.

(** The entry [add("a")] makes after [add("c")]. *)
Definition example_node_a2 : unique_string_node :=
  {| hash := 3270753234; buffer_ptr := {| addr := 2; parent := 4096 |} |}.

(** [add("a")], [add("c")] and [add("b")]: an index of the table and three
    nodes, two of them in the chain of bucket 18, and an arena of six used
    bytes. *)
Definition example_three : list op :=
  [Add [x61; x00]; Add [x63; x00]; Add [x62; x00]].

(** [freeze()] and then [add("b")]. *)
Definition example_freeze_add : list op := [Freeze; Add [x62; x00]].

(** [add("a")], [freeze()], [add("b")] on a new interner, then a read
    through the handle of "a". *)
Definition example_get_after_freeze_add : result (list byte) :=
  '(h, hp) ← unique_strings_add 4096 [x61; x00] (unique_strings_create 4096 ∅);
  hp ← run 4096 example_freeze_add hp;
  get_string hp h.

(** The strings "a" and "c" with their digests, as the probe gets them. *)
Definition example_query_a : string_hash_pair_t :=
  {| pair_hash := 3270753234; str := [x61; x00] |}.

Definition example_query_c : string_hash_pair_t :=
  {| pair_hash := 3852019730; str := [x63; x00] |}.

(** The entry [add("c")] makes after [add("a")]. *)
Definition example_node_c2 : unique_string_node :=
  {| hash := 3852019730; buffer_ptr := {| addr := 2; parent := 4096 |} |}.

(** * Properties *)

(** ** The error monad *)

Lemma bind_Ok {A B : Type} (r : result A) (k : A -> result B) (b : B) :
  (r ≫= k) = Ok b -> exists a, r = Ok a /\ k a = Ok b.
Proof. destruct r as [a|f]; simpl; [eauto | discriminate]. Qed.

Ltac inv_bind H :=
  let a := fresh "a" in
  let Ha := fresh "H" a in
  apply bind_Ok in H; destruct H as (a & Ha & H).

(** ** C strings *)

Lemma is_nul_true (c : byte) : is_nul c = true <-> c = x00.
Proof.
  unfold is_nul; split; [apply Byte.byte_dec_bl | apply Byte.byte_dec_lb].
Qed.

Lemma is_nul_false (c : byte) : is_nul c = false <-> c <> x00.
Proof.
  rewrite <- is_nul_true. destruct (is_nul c); split; congruence.
Qed.

Lemma cstring_app (s rest : list byte) :
  (x00 ∉ s) -> cstring (s ++ x00 :: rest) = Ok s.
Proof.
  induction s as [|c s IH]; intros Hs; simpl.
  - reflexivity.
  - apply not_elem_of_cons in Hs as [Hc Hs].
    apply not_eq_sym, is_nul_false in Hc. rewrite Hc, (IH Hs). reflexivity.
Qed.

Lemma cstring_inv (v s : list byte) :
  cstring v = Ok s -> (x00 ∉ s) /\ exists rest, v = s ++ x00 :: rest.
Proof.
  revert s; induction v as [|c v IH]; intros s H; simpl in H; [discriminate|].
  destruct (is_nul c) eqn:Hc.
  - apply is_nul_true in Hc; subst c. injection H as <-.
    split; [apply not_elem_of_nil | exists v; reflexivity].
  - inv_bind H. injection H as <-. destruct (IH _ Ha) as [Hs [rest ->]].
    apply is_nul_false in Hc. split.
    + apply not_elem_of_cons; split; [congruence | exact Hs].
    + exists rest; reflexivity.
Qed.

Lemma cstring_spec (v s : list byte) :
  cstring v = Ok s <-> (x00 ∉ s) /\ exists rest, v = s ++ x00 :: rest.
Proof.
  split; [apply cstring_inv|]. intros [Hs [rest ->]]. exact (cstring_app s rest Hs).
Qed.

Lemma cstring_take (v s : list byte) :
  cstring v = Ok s <-> (x00 ∉ s) /\ take (S (length s)) v = s ++ [x00].
Proof.
  rewrite cstring_spec. split; intros [Hs H]; (split; [exact Hs|]).
  - destruct H as [rest ->].
    rewrite take_app_ge by lia.
    replace (S (length s) - length s)%nat with 1%nat by lia. reflexivity.
  - exists (drop (S (length s)) v).
    rewrite <- (take_drop (S (length s)) v) at 1. rewrite H, <- app_assoc. reflexivity.
Qed.

Lemma strlen_app (s rest : list byte) :
  (x00 ∉ s) -> strlen (s ++ x00 :: rest) = Ok (Z.of_nat (length s)).
Proof.
  induction s as [|c s IH]; intros Hs; simpl strlen.
  - reflexivity.
  - apply not_elem_of_cons in Hs as [Hc Hs].
    apply not_eq_sym, is_nul_false in Hc. rewrite Hc, (IH Hs). simpl.
    f_equal. lia.
Qed.

Lemma strlen_cstring (v s : list byte) :
  cstring v = Ok s -> strlen v = Ok (Z.of_nat (length s)).
Proof.
  intros H. apply cstring_inv in H as [Hs [rest ->]]. exact (strlen_app s rest Hs).
Qed.

Lemma strlen_Ok (v : list byte) (n : Z) :
  strlen v = Ok n -> exists s, cstring v = Ok s /\ n = Z.of_nat (length s).
Proof.
  revert n; induction v as [|c v IH]; intros n H; simpl in H; [discriminate|].
  simpl. destruct (is_nul c).
  - injection H as <-. exists []. split; reflexivity.
  - inv_bind H. injection H as <-. destruct (IH _ Ha) as (s & -> & ->).
    exists (c :: s). split; [reflexivity|]. simpl length. lia.
Qed.

Lemma uchar_range (b : byte) : 0 <= uchar b < 256.
Proof.
  unfold uchar. pose proof (Byte.to_N_bounded b). lia.
Qed.

Lemma uchar_inj (a b : byte) : uchar a = uchar b -> a = b.
Proof.
  unfold uchar. intros H. apply N2Z.inj in H.
  pose proof (Byte.of_to_N a) as Ha. rewrite H, Byte.of_to_N in Ha. congruence.
Qed.

(** [strcmp] returns 0 exactly on equal strings. *)
Lemma strcmp_cstring (a b s t : list byte) :
  cstring a = Ok s -> cstring b = Ok t ->
  exists z, strcmp a b = Ok z /\ (z = 0 <-> s = t).
Proof.
  revert b s t; induction a as [|c1 a IH]; intros b s t Ha Hb; [discriminate|].
  destruct b as [|c2 b]; [discriminate|]. simpl in Ha, Hb |- *.
  destruct (Byte.eqb c1 c2) eqn:E.
  - apply Byte.byte_dec_bl in E; subst c2.
    destruct (is_nul c1) eqn:Hc.
    + injection Ha as <-. injection Hb as <-. exists 0. tauto.
    + inv_bind Ha. inv_bind Hb. injection Ha as <-. injection Hb as <-.
      destruct (IH _ _ _ Ha0 Ha1) as (z & Hz & Hiff). exists z. split; [exact Hz|].
      rewrite Hiff. split; [congruence | intros [= ->]; reflexivity].
  - apply Byte.eqb_false in E. eexists; split; [reflexivity|]. split.
    + intros Hz. exfalso. apply E, uchar_inj. lia.
    + intros ->. exfalso. apply E.
      destruct (is_nul c1) eqn:H1, (is_nul c2) eqn:H2.
      * apply is_nul_true in H1, H2. congruence.
      * inv_bind Hb. congruence.
      * inv_bind Ha. congruence.
      * inv_bind Ha. inv_bind Hb. congruence.
Qed.

(** ** The content hash *)

Lemma u32_is_u32 (z : Z) : is_u32 (u32 z).
Proof. unfold is_u32, u32. apply Z.mod_pos_bound. lia. Qed.

Lemma lxor_is_u32 (a b : Z) : is_u32 a -> is_u32 b -> is_u32 (Z.lxor a b).
Proof.
  unfold is_u32. intros [Ha Ha'] [Hb Hb'].
  assert (H0 : 0 <= Z.lxor a b) by (apply Z.lxor_nonneg; tauto).
  split; [exact H0|].
  destruct (Z.eq_dec (Z.lxor a b) 0) as [->|Hne]; [lia|].
  apply Z.log2_lt_pow2; [lia|].
  pose proof (Z.log2_lxor a b Ha Hb) as Hl.
  assert (Z.log2 a < 32).
  { destruct (Z.eq_dec a 0) as [->|]; [simpl; lia | apply Z.log2_lt_pow2; lia]. }
  assert (Z.log2 b < 32).
  { destruct (Z.eq_dec b 0) as [->|]; [simpl; lia | apply Z.log2_lt_pow2; lia]. }
  lia.
Qed.

Lemma shiftr_is_u32 (a n : Z) : is_u32 a -> 0 <= n -> is_u32 (Z.shiftr a n).
Proof.
  unfold is_u32. intros [Ha Ha'] Hn. rewrite Z.shiftr_div_pow2 by exact Hn.
  assert (0 < 2 ^ n) by (apply Z.pow_pos_nonneg; lia).
  split; [apply Z.div_pos; lia|].
  apply Z.le_lt_trans with a; [|exact Ha'].
  apply Z.div_le_upper_bound; [lia|]. nia.
Qed.

Lemma murmur_mix_is_u32 (h k : Z) : is_u32 (murmur_mix h k).
Proof.
  unfold murmur_mix. apply lxor_is_u32; apply u32_is_u32.
Qed.

Lemma murmur_final_is_u32 (h : Z) : is_u32 h -> is_u32 (murmur_final h).
Proof.
  intros Hh. unfold murmur_final.
  apply lxor_is_u32; [apply u32_is_u32|].
  apply shiftr_is_u32; [apply u32_is_u32 | lia].
Qed.

Lemma load_app (d rest : list byte) (i : nat) :
  (i < length d)%nat ->
  exists c, load d i = Ok c /\ load (d ++ rest) i = Ok c.
Proof.
  intros Hi. unfold load. rewrite lookup_app_l by exact Hi.
  destruct (lookup_lt_is_Some_2 d i Hi) as [c ->]. exists c; split; reflexivity.
Qed.

(** The loop reads [len] bytes at most: what follows them in memory does
    not matter, and fewer than four bytes are left for the switch. *)
Lemma murmur_words_app (n : nat) :
  forall (s rest : list byte) (len h : Z),
    (length s <= n)%nat -> len <= Z.of_nat (length s) -> is_u32 h ->
    exists d l h',
      murmur_words s len h = Ok (d, l, h')
      /\ murmur_words (s ++ rest) len h = Ok (d ++ rest, l, h')
      /\ l < 4 /\ l <= Z.of_nat (length d) /\ is_u32 h'.
Proof.
  assert (Hstop : forall (s rest : list byte) (len h : Z),
             (4 <=? len) = false -> is_u32 h ->
             len <= Z.of_nat (length s) ->
             exists d l h',
               murmur_words s len h = Ok (d, l, h')
               /\ murmur_words (s ++ rest) len h = Ok (d ++ rest, l, h')
               /\ l < 4 /\ l <= Z.of_nat (length d) /\ is_u32 h').
  { intros s rest len h E Hh Hlen. exists s, len, h.
    pose proof E as E'. apply Z.leb_gt in E'.
    repeat split; try lia; try apply Hh.
    - destruct s; simpl; rewrite E; reflexivity.
    - destruct (s ++ rest); simpl; rewrite E; reflexivity. }
  induction n as [|n IH]; intros s rest len h Hn Hlen Hh;
    (destruct (4 <=? len) eqn:E; [|apply Hstop; assumption]); apply Z.leb_le in E.
  - lia.
  - destruct s as [|b0 [|b1 [|b2 [|b3 s]]]]; simpl in Hlen; try lia.
    cbn [murmur_words app]. apply Z.leb_le in E; rewrite E.
    apply IH; [simpl in Hn; lia | simpl; lia | apply murmur_mix_is_u32].
Qed.

Lemma murmur_tail_app (d rest : list byte) (l h : Z) :
  l < 4 -> l <= Z.of_nat (length d) -> is_u32 h ->
  exists h', murmur_tail d l h = Ok h'
             /\ murmur_tail (d ++ rest) l h = Ok h' /\ is_u32 h'.
Proof.
  intros Hl Hd Hh. unfold murmur_tail.
  destruct (l =? 3) eqn:E3; [apply Z.eqb_eq in E3|apply Z.eqb_neq in E3].
  - destruct (load_app d rest 2) as (c2 & -> & ->); [lia|].
    destruct (load_app d rest 1) as (c1 & -> & ->); [lia|].
    destruct (load_app d rest 0) as (c0 & -> & ->); [lia|].
    simpl. eexists; split; [reflexivity|split; [reflexivity|apply u32_is_u32]].
  - simpl. destruct (l =? 2) eqn:E2; [apply Z.eqb_eq in E2|apply Z.eqb_neq in E2].
    + destruct (load_app d rest 1) as (c1 & -> & ->); [lia|].
      destruct (load_app d rest 0) as (c0 & -> & ->); [lia|].
      simpl. eexists; split; [reflexivity|split; [reflexivity|apply u32_is_u32]].
    + simpl. destruct (l =? 1) eqn:E1; [apply Z.eqb_eq in E1|apply Z.eqb_neq in E1].
      * destruct (load_app d rest 0) as (c0 & -> & ->); [lia|].
        simpl. eexists; split; [reflexivity|split; [reflexivity|apply u32_is_u32]].
      * simpl. eexists; split; [reflexivity|split; [reflexivity|apply u32_is_u32]].
Qed.

(** [hash_murmur2] is total on [len] readable bytes, its value is a 32-bit
    number, and it is a function of these bytes, [len] and [seed] only. *)
Lemma hash_murmur2_prefix (s : list byte) (len seed : Z) :
  len <= Z.of_nat (length s) -> is_u32 seed ->
  exists d, is_u32 d /\ forall rest, hash_murmur2 (s ++ rest) len seed = Ok d.
Proof.
  intros Hlen Hseed. unfold hash_murmur2.
  assert (H0 : is_u32 (Z.lxor seed (u32 len)))
    by (apply lxor_is_u32; [exact Hseed | apply u32_is_u32]).
  destruct (murmur_words_app (length s) s [] len _ (le_n _) Hlen H0)
    as (d & l & h' & Hw & _ & Hl & Hd & Hh').
  destruct (murmur_tail_app d [] l h' Hl Hd Hh') as (h'' & Ht & _ & Hh'').
  exists (murmur_final h''). split; [apply murmur_final_is_u32, Hh''|].
  intros rest.
  destruct (murmur_words_app (length s) s rest len _ (le_n _) Hlen H0)
    as (d1 & l1 & h1 & Hw1 & -> & _).
  rewrite Hw in Hw1. injection Hw1 as <- <- <-. simpl.
  destruct (murmur_tail_app d rest l h' Hl Hd Hh') as (h2 & Ht2 & -> & _).
  rewrite Ht in Ht2. injection Ht2 as <-. reflexivity.
Qed.

Lemma to_int_le (z : Z) : 0 <= z -> to_int z <= z.
Proof.
  intros Hz. unfold to_int.
  assert (0 <= z mod 2 ^ 32 <= z).
  { split; [apply Z.mod_pos_bound; lia | apply Z.mod_le; lia]. }
  destruct (z mod 2 ^ 32 <? 2 ^ 31); lia.
Qed.

Lemma MURMUR_SEED_is_u32 : is_u32 MURMUR_SEED.
Proof. unfold is_u32, MURMUR_SEED. lia. Qed.

Lemma prepare_digest (v s : list byte) :
  cstring v = Ok s ->
  exists d, is_u32 d /\ digest s = Ok d
            /\ _string_hash_pair_prepare v = Ok {| pair_hash := d; str := v |}.
Proof.
  intros Hv. pose proof (strlen_cstring v s Hv) as Hn.
  apply cstring_inv in Hv as [_ [rest ->]].
  destruct (hash_murmur2_prefix s (to_int (Z.of_nat (length s))) MURMUR_SEED)
    as (d & Hd & Hall); [apply to_int_le; lia | apply MURMUR_SEED_is_u32 |].
  exists d. split; [exact Hd|]. split.
  - unfold digest. rewrite <- (app_nil_r s) at 1. apply Hall.
  - unfold _string_hash_pair_prepare. rewrite Hn. simpl. rewrite Hall. reflexivity.
Qed.

Lemma prepare_Ok (v : list byte) (pair : string_hash_pair_t) :
  _string_hash_pair_prepare v = Ok pair -> exists s, cstring v = Ok s.
Proof.
  unfold _string_hash_pair_prepare. intros H. inv_bind H.
  destruct (strlen_Ok v a Ha) as (s & Hs & _). exists s; exact Hs.
Qed.

(** C7.  The digest is a function of the bytes of the string alone: two
    calls on strings with the same bytes return the same 32-bit value,
    wherever the strings are stored and whatever follows them in memory; no
    address and no interner state is an input of the computation. *)
Theorem digest_deterministic (v1 v2 s : list byte) :
  cstring v1 = Ok s -> cstring v2 = Ok s ->
  exists d, is_u32 d /\ digest s = Ok d
            /\ _string_hash_pair_prepare v1 = Ok {| pair_hash := d; str := v1 |}
            /\ _string_hash_pair_prepare v2 = Ok {| pair_hash := d; str := v2 |}.
Proof.
  intros H1 H2.
  destruct (prepare_digest v1 s H1) as (d & Hd & Hs & Hp1).
  destruct (prepare_digest v2 s H2) as (d' & _ & Hs' & Hp2).
  rewrite Hs in Hs'. injection Hs' as <-.
  exists d. repeat split; assumption || apply Hd.
Qed.

Lemma murmur_words_short (n : nat) :
  forall (data : list byte) (len h : Z),
    (length data <= n)%nat -> Z.of_nat (length data) < len ->
    murmur_words data len h = Fault OutOfBounds
    \/ exists d l h', murmur_words data len h = Ok (d, l, h')
                      /\ l < 4 /\ Z.of_nat (length d) < l.
Proof.
  induction n as [|n IH]; intros data len h Hn Hlen;
    destruct (4 <=? len) eqn:E.
  - left. destruct data; [|simpl in Hn; lia]. simpl. rewrite E. reflexivity.
  - right. exists data, len, h. apply Z.leb_gt in E as E'.
    split_and!; [|lia|lia]. destruct data; simpl; rewrite E; reflexivity.
  - destruct data as [|b0 [|b1 [|b2 [|b3 rest]]]];
      try (left; simpl; rewrite E; reflexivity).
    cbn [murmur_words]. rewrite E.
    apply IH; [simpl in Hn; lia | simpl in Hlen |- *; lia].
  - right. exists data, len, h. apply Z.leb_gt in E as E'.
    split_and!; [|lia|lia]. destruct data; simpl; rewrite E; reflexivity.
Qed.

Lemma load_short (d : list byte) (i : nat) :
  (length d <= i)%nat -> load d i = Fault OutOfBounds.
Proof.
  intros Hi. unfold load. rewrite (lookup_ge_None_2 d i Hi). reflexivity.
Qed.

Lemma murmur_tail_short (d : list byte) (l h : Z) :
  l < 4 -> Z.of_nat (length d) < l -> murmur_tail d l h = Fault OutOfBounds.
Proof.
  intros Hl Hd. unfold murmur_tail.
  destruct (l =? 3) eqn:E3; [apply Z.eqb_eq in E3|apply Z.eqb_neq in E3].
  - rewrite (load_short d 2) by lia. reflexivity.
  - cbn [mbind result_bind orb].
    destruct (l =? 2) eqn:E2; [apply Z.eqb_eq in E2|apply Z.eqb_neq in E2].
    + rewrite (load_short d 1) by lia. reflexivity.
    + cbn [mbind result_bind orb].
      destruct (l =? 1) eqn:E1; [apply Z.eqb_eq in E1|apply Z.eqb_neq in E1].
      * rewrite (load_short d 0) by lia. reflexivity.
      * lia.
Qed.

(** X9.  [hash_murmur2] reads the [len] first bytes of [data] and no
    other: when they can be read it returns a 32-bit value that is the same
    for every memory content with these first bytes, and when fewer than
    [len] bytes can be read it reads out of bounds. *)
Theorem hash_murmur2_reads_len (data : list byte) (len seed : Z) :
  is_u32 seed ->
  (len <= Z.of_nat (length data) ->
   exists d, is_u32 d
             /\ forall data', len <= Z.of_nat (length data') ->
                  take (Z.to_nat len) data' = take (Z.to_nat len) data ->
                  hash_murmur2 data' len seed = Ok d)
  /\ (Z.of_nat (length data) < len ->
      hash_murmur2 data len seed = Fault OutOfBounds).
Proof.
  intros Hseed. split.
  - intros Hlen.
    destruct (hash_murmur2_prefix (take (Z.to_nat len) data) len seed)
      as (d & Hd & Hall); [rewrite length_take; lia | exact Hseed |].
    exists d. split; [exact Hd|]. intros data' Hlen' Heq.
    rewrite <- (take_drop (Z.to_nat len) data'), Heq. apply Hall.
  - intros Hshort. unfold hash_murmur2.
    destruct (murmur_words_short (length data) data len
                (Z.lxor seed (u32 len)) (le_n _) Hshort)
      as [->|(d & l & h' & -> & Hl & Hd)]; [reflexivity|].
    cbn [mbind result_bind]. rewrite (murmur_tail_short d l h' Hl Hd). reflexivity.
Qed.

(** ** Stored strings *)

Lemma extends_refl (b : buffer_t) : extends b b.
Proof. split; [lia | reflexivity]. Qed.

Lemma extends_trans (b1 b2 b3 : buffer_t) :
  0 <= used b1 -> extends b1 b2 -> extends b2 b3 -> extends b1 b3.
Proof.
  intros H0 [H12 E12] [H23 E23]. split; [lia|].
  rewrite <- E12.
  replace (Z.to_nat (used b1)) with (Z.to_nat (used b1) `min` Z.to_nat (used b2))%nat by lia.
  rewrite <- !take_take, E23. reflexivity.
Qed.

Lemma holds_extends (b b' : buffer_t) (off : Z) (s : list byte) :
  holds b off s -> extends b b' -> holds b' off s.
Proof.
  intros (H0 & Hu & Hc) [Hle Heq]. split; [exact H0|]. split; [lia|].
  apply cstring_take in Hc as [Hs Hc]. apply cstring_take. split; [exact Hs|].
  rewrite take_drop_commute in Hc |- *.
  replace (Z.to_nat off + S (length s))%nat
    with ((Z.to_nat off + S (length s)) `min` Z.to_nat (used b))%nat in Hc |- * by lia.
  rewrite <- take_take in Hc |- *. rewrite Heq. exact Hc.
Qed.

Lemma wrap64_small (z : Z) : 0 <= z < size_max -> wrap64 z = z.
Proof. intros H. unfold wrap64. apply Z.mod_small. exact H. Qed.

Lemma grow_bounds (size : Z) :
  0 <= size -> size < 1024 * (size / 1024 + 1) <= size + 1024.
Proof.
  intros H. pose proof (Z.div_mod size 1024 ltac:(lia)).
  pose proof (Z.mod_pos_bound size 1024 ltac:(lia)). lia.
Qed.

Lemma memcpy_spec (dst : allocation) (off n : Z) (src : list byte) :
  0 <= off -> 0 <= n -> n <= Z.of_nat (length src) ->
  off + n <= Z.of_nat (length (bytes dst)) ->
  exists d, memcpy dst off src n = Ok d
            /\ base d = base dst
            /\ length (bytes d) = length (bytes dst)
            /\ take (Z.to_nat off) (bytes d) = take (Z.to_nat off) (bytes dst)
            /\ take (Z.to_nat n) (drop (Z.to_nat off) (bytes d))
               = take (Z.to_nat n) src.
Proof.
  intros Hoff Hn Hsrc Hdst. unfold memcpy.
  replace (0 <=? off) with true by (symmetry; apply Z.leb_le; lia).
  replace (n <=? Z.of_nat (length src)) with true by (symmetry; apply Z.leb_le; lia).
  replace (off + n <=? Z.of_nat (length (bytes dst))) with true
    by (symmetry; apply Z.leb_le; lia).
  simpl. eexists; split; [reflexivity|]. simpl.
  assert (Ht : length (take (Z.to_nat off) (bytes dst)) = Z.to_nat off)
    by (rewrite length_take; lia).
  assert (Hs : length (take (Z.to_nat n) src) = Z.to_nat n)
    by (rewrite length_take; lia).
  repeat split.
  - rewrite !length_app, Ht, Hs, length_drop. lia.
  - rewrite take_app_length' by (symmetry; exact Ht). reflexivity.
  - rewrite drop_app_length' by (symmetry; exact Ht).
    rewrite take_app_length' by (symmetry; exact Hs). reflexivity.
Qed.

(** ** The index *)

Lemma deref_Some (hp : heap) (p : Z) (us : unique_strings_t) :
  p <> 0 -> hp !! p = Some us -> deref hp p = Ok us.
Proof.
  intros Hp Hus. unfold deref. apply Z.eqb_neq in Hp. rewrite Hp, Hus. reflexivity.
Qed.

Lemma unique_strings_get_Some (hp : heap) (p : Z) (us : unique_strings_t)
    (h : unique_string_handle_t) :
  p <> 0 -> hp !! p = Some us -> parent h = p ->
  unique_strings_get hp h
  = Ok {| address := base (data (buffer us)) + addr h;
          view := drop (Z.to_nat (addr h)) (bytes (data (buffer us))) |}.
Proof.
  intros Hp Hus Hh. unfold unique_strings_get.
  rewrite Hh, (deref_Some hp p us Hp Hus). reflexivity.
Qed.

Lemma get_string_holds (hp : heap) (p : Z) (us : unique_strings_t)
    (h : unique_string_handle_t) (s : list byte) :
  p <> 0 -> hp !! p = Some us -> parent h = p ->
  holds (buffer us) (addr h) s -> get_string hp h = Ok s.
Proof.
  intros Hp Hus Hh (_ & _ & Hc). unfold get_string.
  rewrite (unique_strings_get_Some hp p us h Hp Hus Hh). exact Hc.
Qed.

Lemma node_wf_extends (self : Z) (b b' : buffer_t) (n : unique_string_node) :
  extends b b' -> node_wf self b n -> node_wf self b' n.
Proof.
  intros Hext [Hp [s Hs]]. split; [exact Hp|].
  exists s. exact (holds_extends b b' _ s Hs Hext).
Qed.

Lemma entry_test (hp : heap) (p : Z) (us : unique_strings_t)
    (pair : string_hash_pair_t) (q : list byte) (n : unique_string_node) :
  p <> 0 -> hp !! p = Some us -> cstring (str pair) = Ok q ->
  node_wf p (buffer us) n ->
  exists same : bool,
    (if hash n =? pair_hash pair
     then p ← unique_strings_get hp (buffer_ptr n);
          c ← strcmp (view p) (str pair);
          Ok (c =? 0)
     else Ok false) = Ok same
    /\ (same = true <-> entry_matches hp pair n).
Proof.
  intros Hp Hus Hq [Hpar [s Hs]].
  pose proof (get_string_holds hp p us _ s Hp Hus Hpar Hs) as Hget.
  unfold entry_matches. rewrite Hget.
  destruct (hash n =? pair_hash pair) eqn:E.
  - apply Z.eqb_eq in E.
    rewrite (unique_strings_get_Some hp p us _ Hp Hus Hpar). cbn [mbind result_bind view].
    destruct Hs as (_ & _ & Hc).
    destruct (strcmp_cstring _ _ s q Hc Hq) as (z & -> & Hz). cbn [mbind result_bind].
    exists (z =? 0). split; [reflexivity|].
    rewrite Z.eqb_eq, Hz. split.
    + intros ->. split; [exact E|]. exists q. split; [reflexivity | exact Hq].
    + intros (_ & s' & [= <-] & Hq'). congruence.
  - apply Z.eqb_neq in E. exists false. split; [reflexivity|].
    split; [discriminate | intros [E' _]; contradiction].
Qed.

Lemma find_node_loop_spec (hp : heap) (p : Z) (us : unique_strings_t)
    (pair : string_hash_pair_t) (q : list byte) :
  p <> 0 -> hp !! p = Some us -> cstring (str pair) = Ok q ->
  forall (c : chain) (idx : nat) (node0 : option nat),
    Forall (node_wf p (buffer us)) c ->
    exists (found : bool) (node : option nat) (k : nat),
      find_node_loop hp pair c idx node0 = Ok (found, node)
      /\ (k <= length c)%nat
      /\ (k = 0%nat <-> c = [])
      /\ node = match k with O => node0 | S k' => Some (idx + k')%nat end
      /\ (forall j n, (S j < k)%nat -> c !! j = Some n ->
            ~ entry_matches hp pair n /\ pair_hash pair <= hash n)
      /\ (found = true ->
            exists k' n, k = S k' /\ c !! k' = Some n /\ entry_matches hp pair n)
      /\ (found = false ->
            (forall j n, (j < k)%nat -> c !! j = Some n -> ~ entry_matches hp pair n)
            /\ (k = length c
                \/ exists k' n, k = S k' /\ c !! k' = Some n
                                /\ hash n < pair_hash pair)).
Proof.
  intros Hp Hus Hq. induction c as [|it next IH]; intros idx node0 Hwf.
  - exists false, node0, 0%nat. cbn [find_node_loop length].
    split_and!; try done.
    intros _. split; [intros; lia | left; reflexivity].
  - apply Forall_cons in Hwf as [Hit Hnext]. cbn [find_node_loop].
    destruct (entry_test hp p us pair q it Hp Hus Hq Hit) as (same & -> & Hsame).
    cbn [mbind result_bind]. destruct same.
    + exists true, (Some idx), 1%nat. cbn [length]. split_and!.
      * reflexivity.
      * lia.
      * split; [lia | discriminate].
      * f_equal; lia.
      * intros; lia.
      * intros _. exists 0%nat, it. split_and!; try reflexivity.
        apply Hsame; reflexivity.
      * discriminate.
    + assert (Hno : ~ entry_matches hp pair it)
        by (intros H; apply Hsame in H; discriminate).
      destruct (hash it <? pair_hash pair) eqn:E.
      * apply Z.ltb_lt in E. exists false, (Some idx), 1%nat. cbn [length].
        split_and!.
        -- reflexivity.
        -- lia.
        -- split; [lia | discriminate].
        -- f_equal; lia.
        -- intros; lia.
        -- discriminate.
        -- intros _. split.
           ++ intros j n Hj Hn. destruct j; [|lia]. injection Hn as <-. exact Hno.
           ++ right. exists 0%nat, it. split_and!; try reflexivity. exact E.
      * apply Z.ltb_ge in E.
        destruct (IH (S idx) (Some idx) Hnext)
          as (found & node & k & -> & Hk & Hnil & Hnode & Hwalk & Hhit & Hmiss).
        exists found, node, (S k). cbn [length]. split_and!.
        -- reflexivity.
        -- lia.
        -- split; [lia | discriminate].
        -- rewrite Hnode. destruct k; f_equal; lia.
        -- intros j n Hj Hn. destruct j as [|j].
           ++ injection Hn as <-. split; [exact Hno | exact E].
           ++ apply (Hwalk j n); [lia | exact Hn].
        -- intros Hf. destruct (Hhit Hf) as (k' & n & -> & Hn & Hm).
           exists (S k'), n. split_and!; [reflexivity | exact Hn | exact Hm].
        -- intros Hf. destruct (Hmiss Hf) as [Hnone Hstop]. split.
           ++ intros j n Hj Hn. destruct j as [|j].
              ** injection Hn as <-. exact Hno.
              ** apply (Hnone j n); [lia | exact Hn].
           ++ destruct Hstop as [->|(k' & n & -> & Hn & Hlt)].
              ** left; reflexivity.
              ** right. exists (S k'), n. split_and!; [reflexivity | exact Hn | exact Hlt].
Qed.

Lemma bucket_index_range (pair : string_hash_pair_t) :
  (Z.to_nat (_get_bucket_index pair) < Z.to_nat UNIQUE_STRING_BUCKETS)%nat.
Proof.
  unfold _get_bucket_index, UNIQUE_STRING_BUCKETS.
  pose proof (Z.mod_pos_bound (pair_hash pair) 32 ltac:(lia)). lia.
Qed.

Lemma bucket_of_Some (us : unique_strings_t) (tbl : list chain)
    (pair : string_hash_pair_t) :
  buckets us = Some tbl -> length tbl = Z.to_nat UNIQUE_STRING_BUCKETS ->
  exists c, tbl !! Z.to_nat (_get_bucket_index pair) = Some c
            /\ bucket_of us (_get_bucket_index pair) = Ok c.
Proof.
  intros Htbl Hlen. unfold bucket_of. rewrite Htbl. cbn [of_option mbind result_bind].
  destruct (lookup_lt_is_Some_2 tbl (Z.to_nat (_get_bucket_index pair))) as [c Hc].
  - rewrite Hlen. apply bucket_index_range.
  - exists c. rewrite Hc. split; reflexivity.
Qed.

(** The probe on a well-formed interner: [visited] entries of the chain are
    visited, and [node] is the last of them. *)
Lemma find_node_spec (hp : heap) (p : Z) (us : unique_strings_t)
    (tbl : list chain) (pair : string_hash_pair_t) (q : list byte) :
  p <> 0 -> hp !! p = Some us -> unique_strings_wf p us ->
  buckets us = Some tbl -> cstring (str pair) = Ok q ->
  exists (c : chain) (found : bool) (node : option nat) (visited : nat),
    tbl !! Z.to_nat (_get_bucket_index pair) = Some c
    /\ _unique_strings_find_node hp p pair = Ok (found, node)
    /\ (visited <= length c)%nat
    /\ (visited = 0%nat <-> c = [])
    /\ node = match visited with O => None | S k => Some k end
    /\ (forall j n, (S j < visited)%nat -> c !! j = Some n ->
          ~ entry_matches hp pair n /\ pair_hash pair <= hash n)
    /\ (found = true <->
          exists j n, (j < visited)%nat /\ c !! j = Some n
                      /\ entry_matches hp pair n)
    /\ (found = true ->
          exists k n, node = Some k /\ c !! k = Some n /\ entry_matches hp pair n)
    /\ (found = false ->
          visited = length c
          \/ exists k n, node = Some k /\ c !! k = Some n
                         /\ hash n < pair_hash pair).
Proof.
  intros Hp Hus [Hb Hwf] Htbl Hq. destruct (Hwf tbl Htbl) as [Hlen Hall].
  destruct (bucket_of_Some us tbl pair Htbl Hlen) as (c & Hc & Hbucket).
  assert (Hcwf : Forall (node_wf p (buffer us)) c).
  { rewrite Forall_lookup in Hall. exact (Hall _ _ Hc). }
  destruct (find_node_loop_spec hp p us pair q Hp Hus Hq c 0%nat None Hcwf)
    as (found & node & k & Hloop & Hk & Hnil & Hnode & Hwalk & Hhit & Hmiss).
  exists c, found, node, k.
  assert (Hrun : _unique_strings_find_node hp p pair = Ok (found, node)).
  { unfold _unique_strings_find_node. rewrite (deref_Some hp p us Hp Hus).
    cbn [mbind result_bind]. rewrite Hbucket. exact Hloop. }
  split_and!; try assumption.
  - split.
    + intros Hf. destruct (Hhit Hf) as (k' & n & -> & Hn & Hm).
      exists k', n. split_and!; [lia | exact Hn | exact Hm].
    + intros (j & n & Hj & Hn & Hm). destruct found; [reflexivity|].
      exfalso. exact (proj1 (Hmiss eq_refl) j n Hj Hn Hm).
  - intros Hf. destruct (Hhit Hf) as (k' & n & -> & Hn & Hm).
    exists k', n. split_and!; [exact Hnode | exact Hn | exact Hm].
  - intros Hf. destruct (proj2 (Hmiss Hf)) as [->|(k' & n & -> & Hn & Hlt)].
    + left; reflexivity.
    + right. exists k', n. split_and!; [exact Hnode | exact Hn | exact Hlt].
Qed.

(** ** The probe *)

(** C9.  During Building the probe walks the chain of the selected bucket
    from its head.  [visited] entries are visited: the walk goes past an
    entry only when it does not match and its digest is not smaller than the
    one looked for.  The probe answers found exactly when a visited entry
    has the digest and the bytes of the query, and [node] is then that
    entry; otherwise the chain is exhausted or the last visited entry has a
    strictly smaller digest, and [node] is the last visited entry, or null
    when the bucket is empty. *)
Theorem find_node_walk (hp : heap) (p : Z) (us : unique_strings_t)
    (tbl : list chain) (v q : list byte) (pair : string_hash_pair_t) :
  p <> 0 -> hp !! p = Some us -> unique_strings_wf p us ->
  buckets us = Some tbl -> cstring v = Ok q ->
  _string_hash_pair_prepare v = Ok pair ->
  exists (c : chain) (found : bool) (node : option nat) (visited : nat),
    tbl !! Z.to_nat (pair_hash pair mod 32) = Some c
    /\ _unique_strings_find_node hp p pair = Ok (found, node)
    /\ (visited <= length c)%nat
    /\ (visited = 0%nat <-> c = [])
    /\ node = match visited with O => None | S k => Some k end
    /\ (forall j n, (S j < visited)%nat -> c !! j = Some n ->
          ~ entry_matches hp pair n /\ pair_hash pair <= hash n)
    /\ (found = true <->
          exists j n, (j < visited)%nat /\ c !! j = Some n
                      /\ entry_matches hp pair n)
    /\ (found = true ->
          exists k n, node = Some k /\ c !! k = Some n /\ entry_matches hp pair n)
    /\ (found = false ->
          visited = length c
          \/ exists k n, node = Some k /\ c !! k = Some n
                         /\ hash n < pair_hash pair).
Proof.
  intros Hp Hus Hwf Htbl Hv Hpair.
  assert (Hq : cstring (str pair) = Ok q).
  { destruct (prepare_digest v q Hv) as (d & _ & _ & Hd).
    rewrite Hd in Hpair. injection Hpair as <-. exact Hv. }
  exact (find_node_spec hp p us tbl pair q Hp Hus Hwf Htbl Hq).
Qed.

(** ** Teardown of the index *)

Lemma free_nodes_count (n : unique_string_node) (c : chain) :
  _unique_string_free_nodes (n :: c) = Ok (S (length c)).
Proof.
  revert n; induction c as [|m c IH]; intros n.
  - reflexivity.
  - cbn [_unique_string_free_nodes] in IH |- *. rewrite (IH m). reflexivity.
Qed.

Lemma free_buckets_loop_count (tbl : list chain) (turns : nat) :
  forall i : nat, (i + turns)%nat = length tbl ->
    free_buckets_loop tbl i turns = Ok (length (concat (drop i tbl))).
Proof.
  induction turns as [|turns IH]; intros i Hi; cbn [free_buckets_loop].
  - rewrite drop_ge by lia. reflexivity.
  - destruct (lookup_lt_is_Some_2 tbl i ltac:(lia)) as [c Hc].
    rewrite Hc. cbn [of_option mbind result_bind].
    rewrite (drop_S tbl c i Hc). cbn [concat]. rewrite length_app.
    rewrite (IH (S i)) by lia.
    destruct c as [|n c]; [reflexivity|]. rewrite free_nodes_count. reflexivity.
Qed.

Lemma free_buckets_spec (us : unique_strings_t) :
  table_ok us ->
  _unique_string_free_buckets us
  = Ok ({| buffer := buffer us; buckets := None |}, index_blocks us).
Proof.
  intros Hok. unfold _unique_string_free_buckets, index_blocks.
  destruct (buckets us) as [tbl|] eqn:Htbl; [|reflexivity].
  rewrite (free_buckets_loop_count tbl _ 0%nat) by (rewrite (Hok tbl Htbl); lia).
  reflexivity.
Qed.

Lemma wf_table_ok (p : Z) (us : unique_strings_t) :
  unique_strings_wf p us -> table_ok us.
Proof. intros [_ Hwf] tbl Htbl. exact (proj1 (Hwf tbl Htbl)). Qed.

Lemma unique_strings_destroy_eq (hp : heap) (p : Z) (us : unique_strings_t) :
  p <> 0 -> hp !! p = Some us -> table_ok us ->
  unique_strings_destroy p hp
  = Ok (delete p hp, S (index_blocks us + free_data (data (buffer us)))).
Proof.
  intros Hp Hus Hok. unfold unique_strings_destroy.
  pose proof Hp as Hp'. apply Z.eqb_neq in Hp'. rewrite Hp'.
  rewrite (deref_Some hp p us Hp Hus). cbn [mbind result_bind].
  rewrite (free_buckets_spec us Hok). reflexivity.
Qed.

Lemma create_wf (p : Z) : unique_strings_wf p calloc_unique_strings_t.
Proof.
  split.
  - unfold buffer_wf, size_max. cbn. lia.
  - intros tbl [= <-]. split; [reflexivity|]. repeat constructor.
Qed.

Lemma growth_nonneg (ops : list op) : 0 <= growth ops.
Proof.
  induction ops as [|[v|] ops IH]; cbn [growth]; try lia.
  destruct (strlen v) as [n|] eqn:E; [|lia].
  destruct (strlen_Ok v n E) as (s & _ & ->). lia.
Qed.

(** ** Ownership *)

(** C8.  [unique_strings_owns] answers true exactly for the addresses of
    the used bytes of the arena of this interner: the base of the block
    plus an offset below [used].  A pointer [unique_strings_get] returns
    for a handle of another interner lies in another block of the C heap,
    and the answer for it is false. *)
Theorem owns_iff_in_arena (hp : heap) (p q : Z) (us us2 : unique_strings_t)
    (s : char_ptr) (h2 : unique_string_handle_t) :
  p <> 0 -> hp !! p = Some us ->
  q <> 0 -> q <> p -> hp !! q = Some us2 ->
  parent h2 = q -> 0 <= addr h2 < used (buffer us2) ->
  buffer_wf (buffer us) -> buffer_wf (buffer us2) ->
  (base (data (buffer us)) + capacity (buffer us) <= base (data (buffer us2))
   \/ base (data (buffer us2)) + capacity (buffer us2) <= base (data (buffer us))) ->
  (exists b, unique_strings_owns hp p s = Ok b
             /\ (b = true <->
                 exists off, 0 <= off < used (buffer us)
                             /\ address s = base (data (buffer us)) + off))
  /\ (exists s2, unique_strings_get hp h2 = Ok s2
                 /\ unique_strings_owns hp p s2 = Ok false).
Proof.
  intros Hp Hus Hq Hqp Hus2 Hpar Haddr (Hu & _) (Hu2 & _) Hdisj.
  unfold unique_strings_owns. rewrite (deref_Some hp p us Hp Hus).
  cbn [mbind result_bind]. split.
  - eexists; split; [reflexivity|].
    rewrite andb_true_iff, Z.leb_le, Z.ltb_lt. split.
    + intros [H1 H2]. exists (address s - base (data (buffer us))). lia.
    + intros (off & Hoff & ->). lia.
  - rewrite (unique_strings_get_Some hp q us2 h2 Hq Hus2 Hpar).
    eexists; split; [reflexivity|]. cbn [address]. f_equal.
    apply andb_false_iff. rewrite Z.leb_gt, Z.ltb_ge. lia.
Qed.

Lemma entry_matches_extends (hp hp' : heap) (p : Z) (us us' : unique_strings_t)
    (pair : string_hash_pair_t) (n : unique_string_node) :
  p <> 0 -> hp !! p = Some us -> hp' !! p = Some us' ->
  node_wf p (buffer us) n -> extends (buffer us) (buffer us') ->
  entry_matches hp pair n <-> entry_matches hp' pair n.
Proof.
  intros Hp Hus Hus' [Hpar [s Hs]] Hext. unfold entry_matches.
  rewrite (get_string_holds hp p us _ s Hp Hus Hpar Hs).
  rewrite (get_string_holds hp' p us' _ s Hp Hus' Hpar (holds_extends _ _ _ _ Hs Hext)).
  reflexivity.
Qed.

(** ** The field keys of the test files *)

Lemma lor_shiftl_add (x y n : Z) :
  0 <= n -> 0 <= x < 2 ^ n -> Z.lor x (Z.shiftl y n) = x + y * 2 ^ n.
Proof.
  intros Hn Hx.
  assert (Hland : Z.land x (Z.shiftl y n) = 0).
  { apply Z.bits_inj'. intros k Hk. rewrite Z.land_spec, Z.bits_0.
    destruct (Z.lt_ge_cases k n) as [Hlt|Hge].
    - rewrite (Z.shiftl_spec_low y n k Hlt). apply andb_false_r.
    - destruct (Z.eq_dec x 0) as [->|Hx0]; [rewrite Z.bits_0; reflexivity|].
      rewrite (Z.bits_above_log2 x k); [reflexivity | lia |].
      apply Z.lt_le_trans with n; [|exact Hge].
      apply Z.log2_lt_pow2; lia. }
  rewrite <- (Z.lxor_lor _ _ Hland), <- (Z.add_nocarry_lxor _ _ Hland).
  rewrite Z.shiftl_mul_pow2 by exact Hn. reflexivity.
Qed.

Lemma MAKE_FOURCC_ascii (a b c d : Z) :
  0 <= a < 128 -> 0 <= b < 128 -> 0 <= c < 128 -> 0 <= d < 128 ->
  MAKE_FOURCC a b c d = a + b * 2 ^ 8 + c * 2 ^ 16 + d * 2 ^ 24.
Proof.
  intros Ha Hb Hc Hd. unfold MAKE_FOURCC.
  rewrite (lor_shiftl_add a b 8) by lia.
  rewrite (lor_shiftl_add _ c 16) by lia.
  rewrite (lor_shiftl_add _ d 24) by lia. reflexivity.
Qed.

Lemma MAKE_FOURCC_neg (a b c d : Z) :
  a < 0 \/ b < 0 \/ c < 0 \/ d < 0 -> MAKE_FOURCC a b c d < 0.
Proof.
  intros H. unfold MAKE_FOURCC.
  assert (Hs : forall x n, x < 0 -> Z.shiftl x n < 0).
  { intros x n Hx. pose proof (Z.shiftl_nonneg x n). lia. }
  rewrite !Z.lor_neg.
  destruct H as [H|[H|[H|H]]].
  - left; left; left; exact H.
  - left; left; right; apply Hs, H.
  - left; right; apply Hs, H.
  - right; apply Hs, H.
Qed.

Lemma schar_cases (c : byte) :
  schar c < 0 \/ (schar c = uchar c /\ 0 <= uchar c < 128).
Proof.
  unfold schar. pose proof (uchar_range c).
  destruct (uchar c <? 128) eqn:E; [apply Z.ltb_lt in E|apply Z.ltb_ge in E]; lia.
Qed.

(** On the four characters of an ASCII key the code of four bytes is the
    code of the key only for the bytes of the key. *)
Lemma MAKE_FOURCC_key (c0 c1 c2 c3 : byte) (a b c d : Z) :
  0 <= a < 128 -> 0 <= b < 128 -> 0 <= c < 128 -> 0 <= d < 128 ->
  MAKE_FOURCC (schar c0) (schar c1) (schar c2) (schar c3) = MAKE_FOURCC a b c d
  <-> uchar c0 = a /\ uchar c1 = b /\ uchar c2 = c /\ uchar c3 = d.
Proof.
  intros Ha Hb Hc Hd. rewrite (MAKE_FOURCC_ascii a b c d) by assumption.
  split.
  - intros H.
    destruct (schar_cases c0) as [N0|[E0 R0]];
      [pose proof (MAKE_FOURCC_neg (schar c0) (schar c1) (schar c2) (schar c3)); lia|].
    destruct (schar_cases c1) as [N1|[E1 R1]];
      [pose proof (MAKE_FOURCC_neg (schar c0) (schar c1) (schar c2) (schar c3)); lia|].
    destruct (schar_cases c2) as [N2|[E2 R2]];
      [pose proof (MAKE_FOURCC_neg (schar c0) (schar c1) (schar c2) (schar c3)); lia|].
    destruct (schar_cases c3) as [N3|[E3 R3]];
      [pose proof (MAKE_FOURCC_neg (schar c0) (schar c1) (schar c2) (schar c3)); lia|].
    rewrite E0, E1, E2, E3 in H. rewrite MAKE_FOURCC_ascii in H by assumption. lia.
  - intros (<- & <- & <- & <-).
    assert (S0 : schar c0 = uchar c0) by (unfold schar; destruct (uchar c0 <? 128) eqn:E;
      [reflexivity | apply Z.ltb_ge in E; lia]).
    assert (S1 : schar c1 = uchar c1) by (unfold schar; destruct (uchar c1 <? 128) eqn:E;
      [reflexivity | apply Z.ltb_ge in E; lia]).
    assert (S2 : schar c2 = uchar c2) by (unfold schar; destruct (uchar c2 <? 128) eqn:E;
      [reflexivity | apply Z.ltb_ge in E; lia]).
    assert (S3 : schar c3 = uchar c3) by (unfold schar; destruct (uchar c3 <? 128) eqn:E;
      [reflexivity | apply Z.ltb_ge in E; lia]).
    rewrite S0, S1, S2, S3. apply MAKE_FOURCC_ascii; assumption.
Qed.

Lemma fourcc_at_four (c0 c1 c2 c3 : byte) (rest : list byte) :
  fourcc_at (c0 :: c1 :: c2 :: c3 :: rest)
  = Ok (MAKE_FOURCC (schar c0) (schar c1) (schar c2) (schar c3)).
Proof. reflexivity. Qed.

Lemma fourcc_at_short (s : list byte) :
  (length s < 4)%nat -> fourcc_at s = Fault OutOfBounds.
Proof.
  intros H. destruct s as [|c0 [|c1 [|c2 [|c3 rest]]]]; try reflexivity.
  simpl in H. lia.
Qed.

(** The test of a case label, as a test on the four first bytes. *)
Lemma fourcc_eqb_key (c0 c1 c2 c3 k0 k1 k2 k3 : byte) :
  uchar k0 < 128 -> uchar k1 < 128 -> uchar k2 < 128 -> uchar k3 < 128 ->
  (MAKE_FOURCC (schar c0) (schar c1) (schar c2) (schar c3)
   =? MAKE_FOURCC (uchar k0) (uchar k1) (uchar k2) (uchar k3)) = true
  <-> [c0; c1; c2; c3] = [k0; k1; k2; k3].
Proof.
  intros H0 H1 H2 H3. pose proof (uchar_range k0). pose proof (uchar_range k1).
  pose proof (uchar_range k2). pose proof (uchar_range k3).
  rewrite Z.eqb_eq, MAKE_FOURCC_key by lia. split.
  - intros (E0 & E1 & E2 & E3).
    apply uchar_inj in E0, E1, E2, E3. congruence.
  - intros [= -> -> -> ->]. repeat split.
Qed.

Ltac fourcc_label_false label k0 k1 k2 k3 Hne :=
  let E := fresh "E" in
  change label with (MAKE_FOURCC (uchar k0) (uchar k1) (uchar k2) (uchar k3));
  match goal with
  | |- context [?x =? MAKE_FOURCC (uchar k0) (uchar k1) (uchar k2) (uchar k3)] =>
      destruct (x =? MAKE_FOURCC (uchar k0) (uchar k1) (uchar k2) (uchar k3)) eqn:E;
      [apply fourcc_eqb_key in E; [contradiction | reflexivity ..]|]
  end.

(** X11.  The field index of a key of the user-agent and OS test files
    depends on the four first bytes of the key only, and for "patc" on its
    length: 1 for "fami", 2 for "majo", 3 for "mino", 4 for "patc" in a key
    shorter than seven characters and 5 in a longer one, -1 for every other
    four bytes.  The two functions agree, and a key of fewer than four
    readable bytes is read out of bounds. *)
Theorem ua_os_field_index (s : list byte) :
  get_field_index_for_os_test s = get_field_index_for_ua_test s
  /\ ((length s < 4)%nat -> get_field_index_for_ua_test s = Fault OutOfBounds)
  /\ (take 4 s = [x66; x61; x6d; x69] -> get_field_index_for_ua_test s = Ok 1)
  /\ (take 4 s = [x6d; x61; x6a; x6f] -> get_field_index_for_ua_test s = Ok 2)
  /\ (take 4 s = [x6d; x69; x6e; x6f] -> get_field_index_for_ua_test s = Ok 3)
  /\ (take 4 s = [x70; x61; x74; x63] ->
      forall q, cstring s = Ok q ->
        get_field_index_for_ua_test s
        = Ok (if Z.of_nat (length q) <? 7 then 4 else 5))
  /\ ((4 <= length s)%nat ->
      take 4 s <> [x66; x61; x6d; x69] -> take 4 s <> [x6d; x61; x6a; x6f] ->
      take 4 s <> [x6d; x69; x6e; x6f] -> take 4 s <> [x70; x61; x74; x63] ->
      get_field_index_for_ua_test s = Ok (-1)).
Proof.
  split; [reflexivity|]. unfold get_field_index_for_ua_test.
  destruct s as [|c0 [|c1 [|c2 [|c3 rest]]]];
    try (split_and!; try discriminate; try (intros; simpl in *; lia);
         intros _; reflexivity).
  rewrite fourcc_at_four. cbn [mbind result_bind take]. split_and!.
  - simpl. lia.
  - intros [= -> -> -> ->]. reflexivity.
  - intros [= -> -> -> ->]. reflexivity.
  - intros [= -> -> -> ->]. reflexivity.
  - intros [= -> -> -> ->] q Hq. rewrite (strlen_cstring _ q Hq). reflexivity.
  - intros _ Hfami Hmajo Hmino Hpatc.
    fourcc_label_false fourcc_fami x66 x61 x6d x69 Hfami.
    fourcc_label_false fourcc_majo x6d x61 x6a x6f Hmajo.
    fourcc_label_false fourcc_mino x6d x69 x6e x6f Hmino.
    fourcc_label_false fourcc_patc x70 x61 x74 x63 Hpatc.
    reflexivity.
Qed.

(** X12.  The field index of a key of the device test file: 1 for "fami",
    2 for "bran", 3 for "mode" and -1 for every other four first bytes; a
    key of fewer than four readable bytes is read out of bounds. *)
Theorem devices_field_index (s : list byte) :
  ((length s < 4)%nat -> get_field_index_for_devices_test s = Fault OutOfBounds)
  /\ (take 4 s = [x66; x61; x6d; x69] -> get_field_index_for_devices_test s = Ok 1)
  /\ (take 4 s = [x62; x72; x61; x6e] -> get_field_index_for_devices_test s = Ok 2)
  /\ (take 4 s = [x6d; x6f; x64; x65] -> get_field_index_for_devices_test s = Ok 3)
  /\ ((4 <= length s)%nat ->
      take 4 s <> [x66; x61; x6d; x69] -> take 4 s <> [x62; x72; x61; x6e] ->
      take 4 s <> [x6d; x6f; x64; x65] ->
      get_field_index_for_devices_test s = Ok (-1)).
Proof.
  unfold get_field_index_for_devices_test.
  destruct s as [|c0 [|c1 [|c2 [|c3 rest]]]];
    try (split_and!; try discriminate; try (intros; simpl in *; lia);
         intros _; reflexivity).
  rewrite fourcc_at_four. cbn [mbind result_bind take]. split_and!.
  - simpl. lia.
  - intros [= -> -> -> ->]. reflexivity.
  - intros [= -> -> -> ->]. reflexivity.
  - intros [= -> -> -> ->]. reflexivity.
  - intros _ Hfami Hbran Hmode.
    fourcc_label_false fourcc_fami x66 x61 x6d x69 Hfami.
    fourcc_label_false fourcc_bran x62 x72 x61 x6e Hbran.
    fourcc_label_false fourcc_mode x6d x6f x64 x65 Hmode.
    reflexivity.
Qed.

(** ** The operations that allocate *)

Section Properties.

Context `{libc : !allocator}.

Lemma length_realloc (a : allocation) (size : Z) :
  length (bytes (realloc a size)) = Z.to_nat size.
Proof.
  unfold realloc; simpl. rewrite length_app, length_take, length_map, length_seq. lia.
Qed.

Lemma take_realloc (a : allocation) (size : Z) (n : nat) :
  (n <= Z.to_nat size)%nat -> (n <= length (bytes a))%nat ->
  take n (bytes (realloc a size)) = take n (bytes a).
Proof.
  intros Hn Hle. unfold realloc; simpl.
  rewrite take_app_le by (rewrite length_take; lia).
  rewrite take_take. f_equal. lia.
Qed.

(** [buffer_alloc] on a buffer whose sizes stay below the range of
    [size_t]. *)
Lemma buffer_alloc_spec (self : Z) (b b' : buffer_t) (size : Z)
    (h : unique_string_handle_t) :
  buffer_wf b -> 0 <= size -> capacity b + size + 1024 < size_max ->
  buffer_alloc self b size = (b', h) ->
  buffer_wf b' /\ extends b b'
  /\ addr h = used b /\ parent h = self
  /\ used b' = used b + size /\ used b' < capacity b'
  /\ capacity b <= capacity b' <= capacity b + size + 1024.
Proof.
  intros (Hu & Hc & Hl) Hsize Hmax H. unfold buffer_alloc in H.
  pose proof (grow_bounds size Hsize) as Hg.
  rewrite (wrap64_small (used b + size)) in H by lia.
  rewrite (wrap64_small (1024 * (size / 1024 + 1))) in H by lia.
  rewrite (wrap64_small (capacity b + _)) in H by lia.
  destruct (used b + size >=? capacity b) eqn:E;
    injection H as <- <-; unfold buffer_wf, extends;
    cbn [used capacity data addr parent];
    rewrite ?(wrap64_small (used b + size)) by lia.
  - apply Z.geb_le in E. rewrite length_realloc.
    rewrite take_realloc by lia. repeat split; lia.
  - rewrite Z.geb_leb in E. apply Z.leb_gt in E. repeat split; lia.
Qed.

Lemma buffer_compact_spec (b : buffer_t) :
  buffer_wf b ->
  buffer_wf (buffer_compact b)
  /\ used (buffer_compact b) = used b
  /\ capacity (buffer_compact b) = used b
  /\ bytes (data (buffer_compact b)) = take (Z.to_nat (used b)) (bytes (data b))
  /\ extends b (buffer_compact b).
Proof.
  intros (Hu & Hc & Hl). unfold buffer_compact, buffer_wf, extends.
  cbn [used capacity data]. rewrite length_realloc.
  assert (Hb : bytes (realloc (data b) (used b))
               = take (Z.to_nat (used b)) (bytes (data b))).
  { unfold realloc; cbn [bytes].
    replace (Z.to_nat (used b) - length (bytes (data b)))%nat with 0%nat by lia.
    apply app_nil_r. }
  rewrite Hb, take_idemp. split_and!; try lia; reflexivity.
Qed.

(** A new node: the string is copied to the end of the used part and the
    bytes before it are kept. *)
Lemma unique_string_node_create_spec (self : Z) (pair : string_hash_pair_t)
    (b : buffer_t) (s : list byte) :
  buffer_wf b -> cstring (str pair) = Ok s ->
  capacity b + Z.of_nat (length s) + 1025 < size_max ->
  exists n b',
    unique_string_node_create self pair b = Ok (n, b')
    /\ buffer_wf b' /\ extends b b'
    /\ hash n = pair_hash pair
    /\ parent (buffer_ptr n) = self
    /\ addr (buffer_ptr n) = used b
    /\ holds b' (addr (buffer_ptr n)) s
    /\ used b' = used b + Z.of_nat (length s) + 1
    /\ capacity b <= capacity b' <= capacity b + Z.of_nat (length s) + 1025.
Proof.
  intros Hwf Hs Hmax. unfold unique_string_node_create.
  rewrite (strlen_cstring _ _ Hs). cbn [mbind result_bind].
  pose proof Hwf as (Hu & Hc & Hl).
  rewrite wrap64_small by lia.
  destruct (buffer_alloc self b (Z.of_nat (length s) + 1)) as [b1 h] eqn:Ha.
  destruct (buffer_alloc_spec self b b1 (Z.of_nat (length s) + 1) h Hwf)
    as ((Hu1 & Hc1 & Hl1) & Hext & Haddr & Hpar & Hused & Hlt & Hcap);
    [lia | lia | exact Ha |].
  apply cstring_take in Hs as [Hnul Htake].
  assert (Hlen : (S (length s) <= length (str pair))%nat).
  { pose proof (f_equal length Htake) as HL.
    rewrite length_take, length_app in HL.
    change (length [x00]) with 1%nat in HL. lia. }
  destruct (memcpy_spec (data b1) (addr h) (Z.of_nat (length s) + 1) (str pair))
    as (d & -> & Hbase & Hlend & Hpre & Hcopy); try lia.
  cbn [mbind result_bind]. eexists; eexists; split; [reflexivity|].
  cbn [hash buffer_ptr used capacity data].
  assert (Hext' : extends b {| used := used b1; capacity := capacity b1; data := d |}).
  { destruct Hext as [Hle Heq]. split; cbn [used data]; [lia|].
    rewrite <- Heq, <- Haddr. exact Hpre. }
  repeat split; cbn [used capacity data]; try lia; try apply Hext'.
  - apply cstring_take. split; [exact Hnul|].
    replace (S (length s)) with (Z.to_nat (Z.of_nat (length s) + 1)) by lia.
    rewrite Hcopy.
    replace (Z.to_nat (Z.of_nat (length s) + 1)) with (S (length s)) by lia.
    exact Htake.
Qed.

(** [unique_strings_add] during Building: it returns a handle of this
    interner to the bytes of the string, keeps the invariant and every byte
    already in use. *)
Lemma unique_strings_add_spec (hp : heap) (p : Z) (us : unique_strings_t)
    (tbl : list chain) (v s : list byte) :
  p <> 0 -> hp !! p = Some us -> unique_strings_wf p us ->
  buckets us = Some tbl -> cstring v = Ok s ->
  capacity (buffer us) + Z.of_nat (length s) + 1025 < size_max ->
  exists h us',
    unique_strings_add p v hp = Ok (h, <[p := us']> hp)
    /\ unique_strings_wf p us'
    /\ is_Some (buckets us')
    /\ extends (buffer us) (buffer us')
    /\ parent h = p
    /\ holds (buffer us') (addr h) s
    /\ capacity (buffer us) <= capacity (buffer us')
       <= capacity (buffer us) + Z.of_nat (length s) + 1025.
Proof.
  intros Hp Hus Hwf Htbl Hv Hmax. unfold unique_strings_add.
  destruct (prepare_digest v s Hv) as (d & _ & _ & ->). cbn [mbind result_bind].
  set (pair := {| pair_hash := d; str := v |}).
  destruct (find_node_spec hp p us tbl pair s Hp Hus Hwf Htbl Hv)
    as (c & found & node & k & Hc & -> & Hk & Hnil & Hnode & _ & _ & Hhit & _).
  cbn [mbind result_bind]. rewrite (deref_Some hp p us Hp Hus). cbn [mbind result_bind].
  destruct Hwf as [Hb Hwf]. destruct (Hwf tbl Htbl) as [Hlen Hall].
  assert (Hcwf : Forall (node_wf p (buffer us)) c).
  { rewrite Forall_lookup in Hall. exact (Hall _ _ Hc). }
  destruct found; cbn [negb].
  - (* the string is in the index *)
    destruct (Hhit eq_refl) as (k' & n & -> & Hn & Hm & s' & Hget & Hs').
    cbn [of_option mbind result_bind].
    destruct (bucket_of_Some us tbl pair Htbl Hlen) as (c0 & Hc0 & ->).
    rewrite Hc in Hc0. injection Hc0 as <-.
    cbn [mbind result_bind]. rewrite Hn. cbn [of_option mbind result_bind].
    exists (buffer_ptr n), us. rewrite (insert_id hp p us Hus).
    rewrite Forall_lookup in Hcwf. destruct (Hcwf _ _ Hn) as [Hpar [s0 Hs0]].
    assert (s0 = s) as ->.
    { pose proof (get_string_holds hp p us _ s0 Hp Hus Hpar Hs0) as Hget0.
      cbn [str pair] in Hs'. congruence. }
    split_and!.
    + reflexivity.
    + split; [exact Hb | exact Hwf].
    + rewrite Htbl. eexists; reflexivity.
    + apply extends_refl.
    + exact Hpar.
    + exact Hs0.
    + lia.
    + lia.
  - (* a new node *)
    destruct (unique_string_node_create_spec p pair (buffer us) s Hb Hv Hmax)
      as (n & b' & -> & Hb' & Hext & _ & Hpar & _ & Hholds & _ & Hcap).
    cbn [mbind result_bind]. rewrite Htbl. cbn [of_option mbind result_bind].
    rewrite Hc. cbn [of_option mbind result_bind].
    assert (Hn : node_wf p b' n) by (split; [exact Hpar | exists s; exact Hholds]).
    assert (Hc' : Forall (node_wf p b') c).
    { eapply Forall_impl; [exact Hcwf|]. intros x. apply node_wf_extends, Hext. }
    assert (Hall' : Forall (Forall (node_wf p b')) tbl).
    { eapply Forall_impl; [exact Hall|]. intros x Hx.
      eapply Forall_impl; [exact Hx|]. intros y. apply node_wf_extends, Hext. }
    assert (Hins : exists c',
               match node with
               | Some k0 => _ ← of_option WildPointer (c !! k0);
                            Ok (take (S k0) c ++ n :: drop (S k0) c)
               | None => Ok [n]
               end = Ok c' /\ Forall (node_wf p b') c').
    { rewrite Hnode. destruct k as [|k'].
      - exists [n]. split; [reflexivity|]. apply Forall_cons; split; [exact Hn | constructor].
      - destruct (lookup_lt_is_Some_2 c k' ltac:(lia)) as [x ->].
        cbn [of_option mbind result_bind]. eexists; split; [reflexivity|].
        apply Forall_app; split; [apply Forall_take, Hc'|].
        apply Forall_cons; split; [exact Hn | apply Forall_drop, Hc']. }
    destruct Hins as (c' & -> & Hc'wf). cbn [mbind result_bind].
    eexists; eexists; split; [reflexivity|]. cbn [buffer buckets].
    split_and!.
    + split; [exact Hb'|]. cbn [buffer buckets]. intros tbl' [= <-]. split.
      * rewrite length_insert. exact Hlen.
      * apply Forall_insert; assumption.
    + eexists; reflexivity.
    + exact Hext.
    + exact Hpar.
    + exact Hholds.
    + apply Hcap.
    + apply Hcap.
Qed.

(** Once the bucket table is gone, [unique_strings_add] reads it through a
    null pointer. *)
Lemma unique_strings_add_frozen (hp : heap) (p : Z) (us : unique_strings_t)
    (v s : list byte) :
  p <> 0 -> hp !! p = Some us -> buckets us = None -> cstring v = Ok s ->
  unique_strings_add p v hp = Fault NullDeref.
Proof.
  intros Hp Hus Hnone Hv. unfold unique_strings_add.
  destruct (prepare_digest v s Hv) as (d & _ & _ & ->). cbn [mbind result_bind].
  unfold _unique_strings_find_node. rewrite (deref_Some hp p us Hp Hus).
  cbn [mbind result_bind]. unfold bucket_of. rewrite Hnone. reflexivity.
Qed.

Lemma unique_strings_freeze_eq (hp : heap) (p : Z) (us : unique_strings_t) :
  p <> 0 -> hp !! p = Some us -> table_ok us ->
  unique_strings_freeze p hp
  = Ok (<[p := {| buffer := buffer_compact (buffer us); buckets := None |}]> hp,
        index_blocks us).
Proof.
  intros Hp Hus Hok. unfold unique_strings_freeze.
  rewrite (deref_Some hp p us Hp Hus). cbn [mbind result_bind].
  rewrite (free_buckets_spec us Hok). reflexivity.
Qed.

Lemma unique_strings_freeze_spec (hp : heap) (p : Z) (us : unique_strings_t) :
  p <> 0 -> hp !! p = Some us -> unique_strings_wf p us ->
  exists us',
    unique_strings_freeze p hp = Ok (<[p := us']> hp, index_blocks us)
    /\ unique_strings_wf p us'
    /\ buckets us' = None
    /\ buffer us' = buffer_compact (buffer us).
Proof.
  intros Hp Hus Hwf.
  rewrite (unique_strings_freeze_eq hp p us Hp Hus (wf_table_ok p us Hwf)).
  eexists; split; [reflexivity|]. cbn [buffer buckets]. split_and!; try reflexivity.
  split; cbn [buffer buckets]; [|discriminate].
  apply buffer_compact_spec, Hwf.
Qed.

Lemma step_spec (p : Z) (o : op) (hp : heap) (us : unique_strings_t) :
  p <> 0 -> hp !! p = Some us -> unique_strings_wf p us ->
  capacity (buffer us) + growth [o] < size_max ->
  (forall hp', step p o hp = Ok hp' ->
     exists us', hp' = <[p := us']> hp
                 /\ unique_strings_wf p us'
                 /\ extends (buffer us) (buffer us')
                 /\ capacity (buffer us') <= capacity (buffer us) + growth [o]
                 /\ is_building us' = match o with
                                      | Add _ => is_building us
                                      | Freeze => false
                                      end)
  /\ (terminated [o] -> lifecycle (is_building us) [o] = true ->
      exists hp', step p o hp = Ok hp').
Proof.
  intros Hp Hus Hwf Hmax. destruct o as [v|]; cbn [step growth] in *.
  - assert (Hadd : forall s tbl, cstring v = Ok s -> buckets us = Some tbl ->
               exists h us',
                 unique_strings_add p v hp = Ok (h, <[p := us']> hp)
                 /\ unique_strings_wf p us' /\ extends (buffer us) (buffer us')
                 /\ capacity (buffer us')
                    <= capacity (buffer us) + (Z.of_nat (length s) + 1025 + 0)
                 /\ is_building us' = is_building us).
    { intros s tbl Hs Htbl. rewrite (strlen_cstring v s Hs) in Hmax.
      destruct (unique_strings_add_spec hp p us tbl v s Hp Hus Hwf Htbl Hs)
        as (h & us' & Hadd & Hwf' & [tbl' Htbl'] & Hext & _ & _ & Hcap); [lia|].
      exists h, us'. unfold is_building. rewrite Htbl, Htbl'.
      split_and!; try assumption; try reflexivity. lia. }
    split.
    + intros hp' H. inv_bind H. destruct a as [h hp1]. injection H as <-.
      pose proof Ha as Hprep. unfold unique_strings_add in Hprep. inv_bind Hprep.
      destruct (prepare_Ok v a Ha0) as [s Hs].
      destruct (buckets us) as [tbl|] eqn:Htbl.
      * destruct (Hadd s tbl Hs eq_refl) as (h' & us' & Hadd' & Hrest).
        rewrite Hadd' in Ha. injection Ha as <- <-.
        exists us'. rewrite (strlen_cstring v s Hs). split; [reflexivity | exact Hrest].
      * rewrite (unique_strings_add_frozen hp p us v s Hp Hus Htbl Hs) in Ha.
        discriminate.
    + intros Hterm Hlife. apply Forall_cons in Hterm as [[s Hs] _].
      unfold is_building in Hlife. destruct (buckets us) as [tbl|] eqn:Htbl;
        [|discriminate].
      destruct (Hadd s tbl Hs eq_refl) as (h' & us' & -> & _).
      eexists; reflexivity.
  - destruct (unique_strings_freeze_spec hp p us Hp Hus Hwf)
      as (us' & -> & Hwf' & Hnone & Hbuf).
    destruct (buffer_compact_spec (buffer us) (proj1 Hwf))
      as (_ & _ & Hcap & _ & Hext).
    cbn [mbind result_bind]. split.
    + intros hp' [= <-]. exists us'. rewrite Hbuf. split_and!; try assumption.
      * reflexivity.
      * rewrite Hcap. destruct Hwf as [(Hu & _) _]. lia.
      * unfold is_building. rewrite Hnone. reflexivity.
    + intros _ _. eexists; reflexivity.
Qed.

(** Every state a sequence of calls reaches keeps the used bytes of the
    state it started from, and a sequence that respects the life cycle runs
    to its end. *)
Lemma run_spec (p : Z) (ops : list op) :
  p <> 0 ->
  forall (hp : heap) (us : unique_strings_t),
    hp !! p = Some us -> unique_strings_wf p us ->
    capacity (buffer us) + growth ops < size_max ->
    (forall hp', run p ops hp = Ok hp' ->
       exists us', hp' !! p = Some us' /\ unique_strings_wf p us'
                   /\ extends (buffer us) (buffer us')
                   /\ capacity (buffer us') <= capacity (buffer us) + growth ops)
    /\ (terminated ops -> lifecycle (is_building us) ops = true ->
        exists hp', run p ops hp = Ok hp').
Proof.
  intros Hp. induction ops as [|o ops IH]; intros hp us Hus Hwf Hmax.
  - cbn [run]. split.
    + intros hp' [= <-]. exists us. cbn [growth].
      split_and!; [exact Hus | exact Hwf | apply extends_refl | lia].
    + intros _ _. eexists; reflexivity.
  - pose proof (growth_nonneg ops) as Hg.
    assert (Hsplit : growth (o :: ops) = growth [o] + growth ops).
    { destruct o; cbn [growth]; lia. }
    assert (Hg1 : 0 <= growth [o]) by apply growth_nonneg.
    destruct (step_spec p o hp us Hp Hus Hwf ltac:(lia)) as [Hsafe Hlive].
    cbn [run]. split.
    + intros hp' H. inv_bind H.
      destruct (Hsafe a Ha) as (us1 & -> & Hwf1 & Hext1 & Hcap1 & _).
      destruct (IH (<[p := us1]> hp) us1 (lookup_insert_eq _ _ _) Hwf1 ltac:(lia))
        as [Hsafe' _].
      destruct (Hsafe' hp' H) as (us' & Hus' & Hwf' & Hext' & Hcap').
      exists us'. split_and!; [exact Hus' | exact Hwf' | | lia].
      apply (extends_trans _ (buffer us1)); [apply Hwf | exact Hext1 | exact Hext'].
    + intros Hterm Hlife. apply Forall_cons in Hterm as [Ho Hterm].
      assert (Hlife1 : lifecycle (is_building us) [o] = true
                       /\ forall b, b = match o with
                                        | Add _ => is_building us
                                        | Freeze => false
                                        end -> lifecycle b ops = true).
      { destruct o; cbn [lifecycle] in Hlife |- *.
        - apply andb_true_iff in Hlife as [-> Hl]. split; [reflexivity|].
          intros b ->. exact Hl.
        - split; [reflexivity|]. intros b ->. exact Hlife. }
      destruct Hlife1 as [Hl0 Hl1].
      destruct (Hlive (Forall_cons_2 _ _ _ Ho (Forall_nil_2 _)) Hl0) as [hp1 Hstep].
      destruct (Hsafe hp1 Hstep) as (us1 & -> & Hwf1 & Hext1 & Hcap1 & Hb1).
      destruct (IH (<[p := us1]> hp) us1 (lookup_insert_eq _ _ _) Hwf1 ltac:(lia))
        as [_ Hlive'].
      destruct (Hlive' Hterm (Hl1 _ Hb1)) as [hp' Hrun].
      exists hp'. rewrite Hstep. exact Hrun.
Qed.

(** A sequence of terminated strings in which an [add] follows a [freeze]
    stops at that [add], which reads the bucket table through the null
    pointer [freeze] left. *)
Lemma run_after_freeze (p : Z) (ops : list op) :
  p <> 0 ->
  forall (hp : heap) (us : unique_strings_t),
    hp !! p = Some us -> unique_strings_wf p us ->
    capacity (buffer us) + growth ops < size_max ->
    terminated ops -> lifecycle (is_building us) ops = false ->
    run p ops hp = Fault NullDeref.
Proof.
  intros Hp. induction ops as [|o ops IH]; intros hp us Hus Hwf Hmax Hterm Hlife.
  - discriminate.
  - pose proof (growth_nonneg ops) as Hg.
    assert (Hsplit : growth (o :: ops) = growth [o] + growth ops).
    { destruct o; cbn [growth]; lia. }
    assert (Hg1 : 0 <= growth [o]) by apply growth_nonneg.
    apply Forall_cons in Hterm as [Ho Hterm].
    destruct (step_spec p o hp us Hp Hus Hwf ltac:(lia)) as [Hsafe Hlive].
    cbn [run]. destruct o as [v|].
    + cbn [lifecycle] in Hlife. destruct Ho as [s Hs].
      destruct (buckets us) as [tbl|] eqn:Htbl.
      * assert (Hb : is_building us = true) by (unfold is_building; rewrite Htbl; reflexivity).
        rewrite Hb in Hlife. cbn [andb] in Hlife.
        destruct Hlive as [hp1 Hstep].
        { apply Forall_cons_2; [exists s; exact Hs | apply Forall_nil_2]. }
        { cbn [lifecycle]. rewrite Hb. reflexivity. }
        destruct (Hsafe hp1 Hstep) as (us1 & -> & Hwf1 & _ & Hcap1 & Hb1).
        rewrite Hstep. cbn [mbind result_bind].
        apply (IH _ us1 (lookup_insert_eq _ _ _) Hwf1); [lia | exact Hterm |].
        rewrite Hb1, Hb. exact Hlife.
      * cbn [step]. rewrite (unique_strings_add_frozen hp p us v s Hp Hus Htbl Hs).
        reflexivity.
    + cbn [lifecycle] in Hlife.
      destruct Hlive as [hp1 Hstep].
      { apply Forall_cons_2; [exact I | apply Forall_nil_2]. }
      { reflexivity. }
      destruct (Hsafe hp1 Hstep) as (us1 & -> & Hwf1 & _ & Hcap1 & Hb1).
      rewrite Hstep. cbn [mbind result_bind].
      apply (IH _ us1 (lookup_insert_eq _ _ _) Hwf1); [lia | exact Hterm |].
      rewrite Hb1. exact Hlife.
Qed.

(** ** Deduplication *)

(** C1 (the code departs from it).  The second [add("c")] does not find the
    entry the first one made: the walk stops at the entry of "a", whose
    digest is smaller, and the first "c" was linked behind it.  The string
    is stored twice, at offsets 2 and 4. *)
Theorem add_twice_two_handles :
  add_a_c_c = Ok ({| addr := 2; parent := 4096 |},
                  {| addr := 4; parent := 4096 |}, [x63], [x63]).
Proof. vm_compute. reflexivity. Qed.

(** ** Growth of the arena *)

(** C2, as the code has it.  [buffer_alloc] grows the block exactly when
    [used + size >= capacity], by [1024 * (size / 1024 + 1)] bytes; the
    bytes the block held are the first bytes of the new block. *)
Theorem buffer_alloc_grows (self : Z) (b : buffer_t) (size : Z) :
  buffer_wf b -> 0 <= size -> capacity b + size + 1024 < size_max ->
  let r := buffer_alloc self b size in
  addr (snd r) = used b
  /\ used (fst r) = used b + size
  /\ (capacity b <= used b + size ->
      capacity (fst r) = capacity b + 1024 * (size / 1024 + 1)
      /\ data (fst r) = realloc (data b) (capacity (fst r)))
  /\ (used b + size < capacity b ->
      capacity (fst r) = capacity b /\ data (fst r) = data b)
  /\ take (length (bytes (data b))) (bytes (data (fst r))) = bytes (data b).
Proof.
  intros (Hu & Hc & Hl) Hsize Hmax. cbv zeta. unfold buffer_alloc.
  pose proof (grow_bounds size Hsize) as Hg.
  rewrite (wrap64_small (used b + size)) by lia.
  rewrite (wrap64_small (1024 * (size / 1024 + 1))) by lia.
  rewrite (wrap64_small (capacity b + _)) by lia.
  destruct (used b + size >=? capacity b) eqn:E;
    cbn [fst snd used capacity data addr];
    rewrite ?(wrap64_small (used b + size)) by lia.
  - apply Z.geb_le in E. split_and!; try reflexivity.
    + intros _. split; reflexivity.
    + intros Hlt. lia.
    + rewrite take_realloc by lia. apply take_ge. lia.
  - rewrite Z.geb_leb in E. apply Z.leb_gt in E. split_and!; try reflexivity.
    + intros Hle. lia.
    + intros _. split; reflexivity.
    + apply take_ge. lia.
Qed.

(** ** Round trip *)

(** C3, as the code has it.  During Building, [get] on the handle [add]
    returns for a NUL-free string reads the bytes of that string; the empty
    string is one of them. *)
Theorem add_get_roundtrip (hp : heap) (p : Z) (us : unique_strings_t)
    (v s : list byte) :
  p <> 0 -> hp !! p = Some us -> unique_strings_wf p us ->
  is_building us = true -> cstring v = Ok s ->
  capacity (buffer us) + Z.of_nat (length s) + 1025 < size_max ->
  exists h hp',
    unique_strings_add p v hp = Ok (h, hp') /\ get_string hp' h = Ok s.
Proof.
  intros Hp Hus Hwf Hb Hv Hmax. unfold is_building in Hb.
  destruct (buckets us) as [tbl|] eqn:Htbl; [|discriminate].
  destruct (unique_strings_add_spec hp p us tbl v s Hp Hus Hwf Htbl Hv Hmax)
    as (h & us' & Hadd & _ & _ & _ & Hpar & Hholds & _).
  exists h, (<[p := us']> hp). split; [exact Hadd|].
  exact (get_string_holds _ p us' h s Hp (lookup_insert_eq _ _ _) Hpar Hholds).
Qed.

(** ** Stability of handles *)

(** C4, as the code has it.  A handle [add] returned reads the same bytes
    in every state that further calls of [add] and [freeze] reach, whatever
    the growth of the arena in between.  The calls run to their end when the
    strings are terminated and no [add] follows a [freeze]; when one does,
    they reach no state: that [add] reads the bucket table through a null
    pointer. *)
Theorem handles_stable (hp0 hp1 : heap) (p : Z) (us0 : unique_strings_t)
    (v s : list byte) (h : unique_string_handle_t) (ops : list op) :
  p <> 0 -> hp0 !! p = Some us0 -> unique_strings_wf p us0 ->
  is_building us0 = true -> cstring v = Ok s ->
  unique_strings_add p v hp0 = Ok (h, hp1) ->
  capacity (buffer us0) + Z.of_nat (length s) + 1025 + growth ops < size_max ->
  get_string hp1 h = Ok s
  /\ (forall hp', run p ops hp1 = Ok hp' -> get_string hp' h = Ok s)
  /\ (terminated ops -> lifecycle true ops = true ->
      exists hp', run p ops hp1 = Ok hp')
  /\ (terminated ops -> lifecycle true ops = false ->
      run p ops hp1 = Fault NullDeref).
Proof.
  intros Hp Hus Hwf Hb Hv Hadd Hmax. unfold is_building in Hb.
  destruct (buckets us0) as [tbl|] eqn:Htbl; [|discriminate].
  pose proof (growth_nonneg ops) as Hg.
  destruct (unique_strings_add_spec hp0 p us0 tbl v s Hp Hus Hwf Htbl Hv)
    as (h' & us1 & Hadd' & Hwf1 & [tbl1 Htbl1] & _ & Hpar & Hholds & Hcap); [lia|].
  rewrite Hadd' in Hadd. injection Hadd as -> <-.
  destruct (run_spec p ops Hp (<[p := us1]> hp0) us1 (lookup_insert_eq _ _ _) Hwf1)
    as [Hsafe Hlive]; [lia|].
  split_and!.
  - exact (get_string_holds _ p us1 h s Hp (lookup_insert_eq _ _ _) Hpar Hholds).
  - intros hp' Hrun. destruct (Hsafe hp' Hrun) as (us' & Hus' & _ & Hext & _).
    apply (get_string_holds hp' p us' h s Hp Hus' Hpar).
    exact (holds_extends _ _ _ _ Hholds Hext).
  - intros Hterm Hlife. apply Hlive; [exact Hterm|].
    unfold is_building. rewrite Htbl1. exact Hlife.
  - intros Hterm Hlife.
    apply (run_after_freeze p ops Hp _ us1 (lookup_insert_eq _ _ _) Hwf1);
      [lia | exact Hterm |].
    unfold is_building. rewrite Htbl1. exact Hlife.
Qed.

(** ** Freeze *)

(** C5.  [unique_strings_freeze] hands every node and the bucket table back
    to the allocator and leaves the bucket pointer null; the arena is
    resized to [used] bytes, so [capacity] equals [used]; [used] and the
    used bytes are what they were, and every handle of the interner reads
    the same bytes after the call as before. *)
Theorem freeze_preserves (hp : heap) (p : Z) (us : unique_strings_t) :
  p <> 0 -> hp !! p = Some us -> unique_strings_wf p us ->
  exists us',
    unique_strings_freeze p hp = Ok (<[p := us']> hp, index_blocks us)
    /\ buckets us' = None
    /\ used (buffer us') = used (buffer us)
    /\ capacity (buffer us') = used (buffer us)
    /\ bytes (data (buffer us'))
       = take (Z.to_nat (used (buffer us))) (bytes (data (buffer us)))
    /\ forall h s, parent h = p -> holds (buffer us) (addr h) s ->
         get_string hp h = Ok s /\ get_string (<[p := us']> hp) h = Ok s.
Proof.
  intros Hp Hus Hwf.
  destruct (unique_strings_freeze_spec hp p us Hp Hus Hwf)
    as (us' & Hfreeze & _ & Hnone & Hbuf).
  destruct (buffer_compact_spec (buffer us) (proj1 Hwf)) as (_ & Hu & Hc & Hb & Hext).
  exists us'. rewrite Hbuf. split_and!; try assumption.
  intros h s Hh Hs. split.
  - exact (get_string_holds hp p us h s Hp Hus Hh Hs).
  - apply (get_string_holds _ p us' h s Hp (lookup_insert_eq _ _ _) Hh).
    rewrite Hbuf. exact (holds_extends _ _ _ _ Hs Hext).
Qed.

(** C6, as the code has it.  After [add(s)] and [freeze()] the handle still
    reads [s], but a further [add] returns no handle: the bucket pointer is
    null and the probe reads the table through it. *)
Theorem add_after_freeze_faults (hp : heap) (p : Z) (us : unique_strings_t)
    (v s : list byte) :
  p <> 0 -> hp !! p = Some us -> unique_strings_wf p us ->
  is_building us = true -> cstring v = Ok s ->
  capacity (buffer us) + Z.of_nat (length s) + 1025 < size_max ->
  exists h hp1 hp2 k,
    unique_strings_add p v hp = Ok (h, hp1)
    /\ unique_strings_freeze p hp1 = Ok (hp2, k)
    /\ get_string hp2 h = Ok s
    /\ forall v' s', cstring v' = Ok s' ->
         unique_strings_add p v' hp2 = Fault NullDeref.
Proof.
  intros Hp Hus Hwf Hb Hv Hmax. unfold is_building in Hb.
  destruct (buckets us) as [tbl|] eqn:Htbl; [|discriminate].
  destruct (unique_strings_add_spec hp p us tbl v s Hp Hus Hwf Htbl Hv Hmax)
    as (h & us1 & Hadd & Hwf1 & _ & _ & Hpar & Hholds & _).
  destruct (unique_strings_freeze_spec (<[p := us1]> hp) p us1 Hp
              (lookup_insert_eq _ _ _) Hwf1) as (us2 & Hfreeze & _ & Hnone & Hbuf).
  destruct (buffer_compact_spec (buffer us1) (proj1 Hwf1)) as (_ & _ & _ & _ & Hext).
  exists h, (<[p := us1]> hp), (<[p := us2]> (<[p := us1]> hp)), (index_blocks us1).
  split_and!; [exact Hadd | exact Hfreeze | |].
  - apply (get_string_holds _ p us2 h s Hp (lookup_insert_eq _ _ _) Hpar).
    rewrite Hbuf. exact (holds_extends _ _ _ _ Hholds Hext).
  - intros v' s' Hv'.
    exact (unique_strings_add_frozen _ p us2 v' s' Hp (lookup_insert_eq _ _ _) Hnone Hv').
Qed.

(** ** Destruction *)

(** C10.  [unique_strings_destroy] on a null pointer does nothing.  On an
    interner it runs without fault before and after [freeze].  It frees the
    blocks of the index when the bucket pointer is not null, the table and
    every node, and none of them when it is null, as after [freeze]; then
    the arena, one block unless its pointer is null, and the object, which
    leaves the heap. *)
Theorem destroy_safe (hp : heap) (p : Z) (us : unique_strings_t) :
  p <> 0 -> hp !! p = Some us -> table_ok us ->
  unique_strings_destroy 0 hp = Ok (hp, 0%nat)
  /\ unique_strings_destroy p hp
     = Ok (delete p hp,
           S (match buckets us with
              | Some tbl => S (length (concat tbl))
              | None => 0
              end
              + (if (base (data (buffer us)) =? 0)%Z then 0 else 1)))
  /\ _unique_string_free_buckets us
     = Ok ({| buffer := buffer us; buckets := None |}, index_blocks us)
  /\ exists us' k,
       unique_strings_freeze p hp = Ok (<[p := us']> hp, k)
       /\ buckets us' = None
       /\ _unique_string_free_buckets us' = Ok (us', 0%nat)
       /\ unique_strings_destroy p (<[p := us']> hp)
          = Ok (delete p hp,
                S (if (base (data (buffer us')) =? 0)%Z then 0 else 1)).
Proof.
  intros Hp Hus Hok. split_and!.
  - reflexivity.
  - exact (unique_strings_destroy_eq hp p us Hp Hus Hok).
  - exact (free_buckets_spec us Hok).
  - eexists; eexists. split; [exact (unique_strings_freeze_eq hp p us Hp Hus Hok)|].
    split_and!; [reflexivity | reflexivity |].
    rewrite (unique_strings_destroy_eq _ p _ Hp (lookup_insert_eq _ _ _));
      [|intros tbl; discriminate].
    rewrite delete_insert_eq. reflexivity.
Qed.

(** ** Invariants of the reachable states *)

(** X1.  Every state that calls of [add] and [freeze] reach from a new
    interner keeps [used] within [capacity], and every entry of the index
    names a NUL-terminated string that ends within the used bytes. *)
Theorem reachable_invariant (p : Z) (hp hp' : heap) (ops : list op) :
  p <> 0 -> growth ops < size_max ->
  run p ops (unique_strings_create p hp) = Ok hp' ->
  exists us,
    hp' !! p = Some us
    /\ 0 <= used (buffer us) <= capacity (buffer us)
    /\ forall tbl c n, buckets us = Some tbl -> c ∈ tbl -> n ∈ c ->
         parent (buffer_ptr n) = p
         /\ exists s, cstring (drop (Z.to_nat (addr (buffer_ptr n)))
                                    (bytes (data (buffer us)))) = Ok s
                      /\ addr (buffer_ptr n) + Z.of_nat (length s) + 1
                         <= used (buffer us).
Proof.
  intros Hp Hmax Hrun.
  destruct (run_spec p ops Hp (unique_strings_create p hp) calloc_unique_strings_t
              (lookup_insert_eq _ _ _) (create_wf p)) as [Hsafe _].
  { cbn [capacity buffer calloc_unique_strings_t]. lia. }
  destruct (Hsafe hp' Hrun) as (us & Hus & [Hb Hwf] & _ & _).
  exists us. split_and!; [exact Hus | apply Hb | apply Hb |].
  intros tbl c n Htbl Hc Hn. destruct (Hwf tbl Htbl) as [_ Hall].
  rewrite Forall_forall in Hall. pose proof (Hall c Hc) as Hcwf.
  rewrite Forall_forall in Hcwf. destruct (Hcwf n Hn) as [Hpar (s & _ & Hend & Hs)].
  split; [exact Hpar|]. exists s. split; [exact Hs | exact Hend].
Qed.

(** X2.  During Building two strings with different bytes never get the
    same handle, whatever calls are made between the two [add]s. *)
Theorem distinct_strings_distinct_handles (p : Z) (hp0 hp1 hp2 hp3 : heap)
    (us0 : unique_strings_t) (v1 v2 s1 s2 : list byte)
    (h1 h2 : unique_string_handle_t) (ops : list op) :
  p <> 0 -> hp0 !! p = Some us0 -> unique_strings_wf p us0 ->
  is_building us0 = true ->
  cstring v1 = Ok s1 -> cstring v2 = Ok s2 -> s1 <> s2 ->
  capacity (buffer us0) + Z.of_nat (length s1) + 1025 + growth ops
  + Z.of_nat (length s2) + 1025 < size_max ->
  unique_strings_add p v1 hp0 = Ok (h1, hp1) ->
  run p ops hp1 = Ok hp2 ->
  unique_strings_add p v2 hp2 = Ok (h2, hp3) ->
  h1 <> h2.
Proof.
  intros Hp Hus Hwf Hb Hv1 Hv2 Hne Hmax Hadd1 Hrun Hadd2 Heq. subst h2.
  unfold is_building in Hb.
  destruct (buckets us0) as [tbl|] eqn:Htbl; [|discriminate].
  pose proof (growth_nonneg ops) as Hg.
  destruct (unique_strings_add_spec hp0 p us0 tbl v1 s1 Hp Hus Hwf Htbl Hv1)
    as (h & us1 & Hadd & Hwf1 & _ & _ & _ & Hholds1 & Hcap1); [lia|].
  rewrite Hadd in Hadd1. injection Hadd1 as -> <-.
  destruct (run_spec p ops Hp (<[p := us1]> hp0) us1 (lookup_insert_eq _ _ _) Hwf1)
    as [Hsafe _]; [lia|].
  destruct (Hsafe hp2 Hrun) as (us2 & Hus2 & Hwf2 & Hext2 & Hcap2).
  destruct (buckets us2) as [tbl2|] eqn:Htbl2.
  - destruct (unique_strings_add_spec hp2 p us2 tbl2 v2 s2 Hp Hus2 Hwf2 Htbl2 Hv2)
      as (h' & us3 & Hadd' & _ & _ & Hext3 & _ & Hholds2 & _); [lia|].
    rewrite Hadd' in Hadd2. injection Hadd2 as -> <-.
    pose proof (holds_extends _ _ _ _ (holds_extends _ _ _ _ Hholds1 Hext2) Hext3)
      as (_ & _ & Hc1).
    destruct Hholds2 as (_ & _ & Hc2). congruence.
  - rewrite (unique_strings_add_frozen hp2 p us2 v2 s2 Hp Hus2 Htbl2 Hv2) in Hadd2.
    discriminate.
Qed.

Lemma run_wf (p : Z) (hp hp' : heap) (ops : list op) (us : unique_strings_t) :
  p <> 0 -> growth ops < size_max ->
  run p ops (unique_strings_create p hp) = Ok hp' -> hp' !! p = Some us ->
  unique_strings_wf p us.
Proof.
  intros Hp Hmax Hrun Hus.
  destruct (run_spec p ops Hp (unique_strings_create p hp) calloc_unique_strings_t
              (lookup_insert_eq _ _ _) (create_wf p)) as [Hsafe _].
  { cbn [capacity buffer calloc_unique_strings_t]. lia. }
  destruct (Hsafe hp' Hrun) as (us' & Hus' & Hwf & _).
  rewrite Hus in Hus'. injection Hus' as <-. exact Hwf.
Qed.

(** ** What [unique_strings_add] does to the index and to the arena *)

(** The two ways of [unique_strings_add] during Building.  A hit: an entry
    of the bucket matches, the entries before it do not and have no smaller
    digest, and its handle is returned with the heap as it was.  A miss:
    the [k] entries visited do not match, a node is created and linked
    behind them. *)
Lemma unique_strings_add_cases (hp : heap) (p : Z) (us : unique_strings_t)
    (tbl : list chain) (v s : list byte) :
  p <> 0 -> hp !! p = Some us -> unique_strings_wf p us ->
  buckets us = Some tbl -> cstring v = Ok s ->
  exists d c,
    digest s = Ok d /\ is_u32 d
    /\ tbl !! Z.to_nat (d mod 32) = Some c
    /\ ((exists k n,
            c !! k = Some n
            /\ entry_matches hp {| pair_hash := d; str := v |} n
            /\ (forall j m, (j < k)%nat -> c !! j = Some m ->
                  ~ entry_matches hp {| pair_hash := d; str := v |} m
                  /\ d <= hash m)
            /\ unique_strings_add p v hp = Ok (buffer_ptr n, hp))
        \/ (exists k,
              (k <= length c)%nat
              /\ (forall j m, (j < k)%nat -> c !! j = Some m ->
                    ~ entry_matches hp {| pair_hash := d; str := v |} m)
              /\ (forall j m, (S j < k)%nat -> c !! j = Some m -> d <= hash m)
              /\ (k = length c
                  \/ exists k' m, k = S k' /\ c !! k' = Some m /\ hash m < d)
              /\ unique_strings_add p v hp
                 = '(n, b) ← unique_string_node_create
                               p {| pair_hash := d; str := v |} (buffer us);
                   Ok (buffer_ptr n,
                       <[p := {| buffer := b;
                                 buckets := Some (<[Z.to_nat (d mod 32) :=
                                                     take k c ++ n :: drop k c]> tbl)
                              |}]> hp))).
Proof.
  intros Hp Hus Hwf Htbl Hv. unfold unique_strings_add.
  destruct (prepare_digest v s Hv) as (d & Hd & Hdig & ->). cbn [mbind result_bind].
  set (pair := {| pair_hash := d; str := v |}).
  destruct (find_node_spec hp p us tbl pair s Hp Hus Hwf Htbl Hv)
    as (c & found & node & k & Hc & -> & Hk & Hnil & Hnode & Hwalk & Hiff & Hhit & Hmiss).
  cbn [mbind result_bind]. rewrite (deref_Some hp p us Hp Hus). cbn [mbind result_bind].
  exists d, c. split_and!; [exact Hdig | exact Hd | exact Hc |].
  destruct (proj2 Hwf tbl Htbl) as [Hlen _].
  destruct found; cbn [negb].
  - left. destruct (Hhit eq_refl) as (k' & n & -> & Hn & Hm).
    cbn [of_option mbind result_bind].
    destruct (bucket_of_Some us tbl pair Htbl Hlen) as (c0 & Hc0 & ->).
    rewrite Hc in Hc0. injection Hc0 as <-.
    cbn [mbind result_bind]. rewrite Hn. cbn [of_option mbind result_bind].
    exists k', n. split_and!; [exact Hn | exact Hm | | reflexivity].
    intros j m Hj Hjm. destruct k as [|k0]; [discriminate|].
    injection Hnode as ->. apply (Hwalk j m); [lia | exact Hjm].
  - right. exists k. split_and!.
    + exact Hk.
    + intros j m Hj Hjm Hmatch.
      assert (Hf : false = true) by (apply Hiff; exists j, m; split_and!; assumption).
      discriminate.
    + intros j m Hj Hjm. exact (proj2 (Hwalk j m Hj Hjm)).
    + destruct (Hmiss eq_refl) as [->|(k' & m & Hk' & Hm & Hlt)]; [left; reflexivity|].
      right. exists k', m. rewrite Hnode in Hk'. destruct k as [|k0]; [discriminate|].
      injection Hk' as ->. split_and!; [reflexivity | exact Hm | exact Hlt].
    + subst pair.
      destruct (unique_string_node_create p _ (buffer us)) as [[n b]|f];
        cbn [mbind result_bind]; [|reflexivity].
      rewrite Htbl. cbn [of_option mbind result_bind].
      change (Z.to_nat (_get_bucket_index {| pair_hash := d; str := v |}))
        with (Z.to_nat (d mod 32)) in Hc |- *.
      rewrite Hc. cbn [of_option mbind result_bind]. rewrite Hnode.
      destruct k as [|k0].
      * assert (c = []) as -> by (apply Hnil; reflexivity). reflexivity.
      * destruct (lookup_lt_is_Some_2 c k0 ltac:(lia)) as [x ->]. reflexivity.
Qed.

(** X3.  During Building, when no entry of the bucket of a string has a
    digest smaller than the digest of the string, a second [add] of the
    string returns the handle of the first and changes nothing. *)
Theorem add_twice_same_handle (hp : heap) (p : Z) (us : unique_strings_t)
    (tbl : list chain) (c : chain) (v s : list byte) (d : Z) :
  p <> 0 -> hp !! p = Some us -> unique_strings_wf p us ->
  buckets us = Some tbl -> cstring v = Ok s -> digest s = Ok d ->
  tbl !! Z.to_nat (d mod 32) = Some c ->
  (forall m, m ∈ c -> d <= hash m) ->
  capacity (buffer us) + Z.of_nat (length s) + 1025 < size_max ->
  exists h hp1,
    unique_strings_add p v hp = Ok (h, hp1)
    /\ unique_strings_add p v hp1 = Ok (h, hp1)
    /\ get_string hp1 h = Ok s.
Proof.
  intros Hp Hus Hwf Htbl Hv Hdig Hc Hge Hmax.
  destruct (unique_strings_add_spec hp p us tbl v s Hp Hus Hwf Htbl Hv Hmax)
    as (h & us1 & Hadd & Hwf1 & [tbl1 Htbl1] & Hext & Hpar & Hholds & Hcap).
  pose proof (lookup_insert_eq hp p us1) as Hus1.
  pose proof (get_string_holds _ p us1 h s Hp Hus1 Hpar Hholds) as Hget.
  exists h, (<[p := us1]> hp). split_and!; [exact Hadd | | exact Hget].
  destruct (unique_strings_add_cases hp p us tbl v s Hp Hus Hwf Htbl Hv)
    as (d' & c' & Hdig' & _ & Hc' & Hcases).
  rewrite Hdig in Hdig'. injection Hdig' as <-.
  rewrite Hc in Hc'. injection Hc' as <-.
  assert (Hcwf : Forall (node_wf p (buffer us)) c).
  { destruct (proj2 Hwf tbl Htbl) as [_ Hall].
    rewrite Forall_lookup in Hall. exact (Hall _ _ Hc). }
  destruct Hcases as [(k & n & Hn & Hm & _ & Heq)|(k & Hk & Hno & _ & Hstop & Heq)].
  - (* the first call is a hit: the heap is the same *)
    rewrite Heq in Hadd. injection Hadd as <- Hhp. rewrite <- Hhp. exact Heq.
  - (* the first call links a node at the end of the chain *)
    assert (k = length c) as ->.
    { destruct Hstop as [->|(k' & m & -> & Hm & Hlt)]; [reflexivity|].
      pose proof (Hge m (list_elem_of_lookup_2 _ _ _ Hm)). lia. }
    rewrite take_ge, drop_ge in Heq by lia.
    destruct (unique_string_node_create_spec p {| pair_hash := d; str := v |}
                (buffer us) s (proj1 Hwf) Hv Hmax)
      as (n & b' & Hcreate & _ & _ & Hhash & _ & _ & _ & _ & _).
    rewrite Hcreate in Heq. cbn [mbind result_bind] in Heq.
    rewrite Heq in Hadd. injection Hadd as <- Hhp.
    apply (f_equal (fun m : heap => m !! p)) in Hhp.
    rewrite !lookup_insert_eq in Hhp. injection Hhp as <-.
    cbn [buffer buckets] in *. injection Htbl1 as <-.
    set (us1 := {| buffer := b';
                   buckets := Some (<[Z.to_nat (d mod 32) := c ++ [n]]> tbl) |}) in *.
    assert (Hc1 : <[Z.to_nat (d mod 32) := c ++ [n]]> tbl !! Z.to_nat (d mod 32)
                  = Some (c ++ [n])).
    { apply list_lookup_insert_eq. exact (lookup_lt_Some _ _ _ Hc). }
    assert (Hmatch : entry_matches (<[p := us1]> hp) {| pair_hash := d; str := v |} n).
    { split; [exact Hhash|]. exists s. split; [exact Hget | exact Hv]. }
    destruct (unique_strings_add_cases (<[p := us1]> hp) p us1 _ v s Hp Hus1 Hwf1
                eq_refl Hv) as (d' & c' & Hdig' & _ & Hc' & Hcases).
    rewrite Hdig in Hdig'. injection Hdig' as <-.
    rewrite Hc1 in Hc'. injection Hc' as <-.
    assert (Hold : forall j m, c !! j = Some m ->
              ~ entry_matches (<[p := us1]> hp) {| pair_hash := d; str := v |} m).
    { intros j m Hjm Hmm. apply (Hno j m (lookup_lt_Some _ _ _ Hjm) Hjm).
      rewrite Forall_lookup in Hcwf.
      apply (entry_matches_extends hp (<[p := us1]> hp) p us us1 _ m Hp Hus Hus1
               (Hcwf _ _ Hjm) Hext). exact Hmm. }
    destruct Hcases as [(k & n2 & Hn2 & Hm2 & _ & Heq2)|(k & Hk2 & Hno2 & _ & Hstop2 & _)].
    + destruct (decide (k < length c)%nat) as [Hlt|Hnlt].
      * rewrite lookup_app_l in Hn2 by exact Hlt. destruct (Hold k n2 Hn2 Hm2).
      * pose proof (lookup_lt_Some _ _ _ Hn2) as Hk2. rewrite length_app in Hk2.
        cbn [length] in Hk2.
        rewrite lookup_app_r in Hn2 by lia.
        replace (k - length c)%nat with 0%nat in Hn2 by lia.
        injection Hn2 as <-. exact Heq2.
    + exfalso. rewrite length_app in Hk2. cbn [length] in Hk2.
      destruct Hstop2 as [->|(k' & m & -> & Hm & Hlt)].
      * apply (Hno2 (length c) n); [rewrite length_app; cbn [length]; lia | | exact Hmatch].
        rewrite lookup_app_r by lia. rewrite Nat.sub_diag. reflexivity.
      * destruct (decide (k' < length c)%nat) as [Hlt'|Hnlt].
        -- rewrite lookup_app_l in Hm by exact Hlt'.
           pose proof (Hge m (list_elem_of_lookup_2 _ _ _ Hm)). lia.
        -- rewrite lookup_app_r in Hm by lia.
           replace (k' - length c)%nat with 0%nat in Hm by lia.
           injection Hm as <-. cbn [pair_hash] in Hhash. lia.
Qed.

(** X4.  [unique_strings_add] never drops or reorders an entry of the
    index.  The other buckets are untouched; the chain of the bucket of the
    string is either unchanged, the handle returned being the one of an
    entry of it, or it gets one new entry between its [k] first entries and
    the rest, with the digest of the string and the handle returned, which
    is at the former end of the used bytes. *)
Theorem add_links_one_entry (hp : heap) (p : Z) (us : unique_strings_t)
    (tbl : list chain) (v s : list byte) :
  p <> 0 -> hp !! p = Some us -> unique_strings_wf p us ->
  buckets us = Some tbl -> cstring v = Ok s ->
  capacity (buffer us) + Z.of_nat (length s) + 1025 < size_max ->
  exists d c h us' tbl',
    digest s = Ok d
    /\ tbl !! Z.to_nat (d mod 32) = Some c
    /\ unique_strings_add p v hp = Ok (h, <[p := us']> hp)
    /\ buckets us' = Some tbl'
    /\ length tbl' = length tbl
    /\ (forall j, j <> Z.to_nat (d mod 32) -> tbl' !! j = tbl !! j)
    /\ ((tbl' = tbl /\ buffer us' = buffer us
         /\ exists n, n ∈ c /\ buffer_ptr n = h)
        \/ (exists k,
              (k <= length c)%nat
              /\ tbl' !! Z.to_nat (d mod 32)
                 = Some (take k c ++ {| hash := d; buffer_ptr := h |} :: drop k c)
              /\ addr h = used (buffer us))).
Proof.
  intros Hp Hus Hwf Htbl Hv Hmax.
  destruct (unique_strings_add_cases hp p us tbl v s Hp Hus Hwf Htbl Hv)
    as (d & c & Hdig & _ & Hc & Hcases).
  exists d, c.
  destruct Hcases as [(k & n & Hn & _ & _ & Heq)|(k & Hk & _ & _ & _ & Heq)].
  - exists (buffer_ptr n), us, tbl. rewrite (insert_id hp p us Hus).
    split_and!; try done. left. split_and!; try done.
    exists n. split; [exact (list_elem_of_lookup_2 _ _ _ Hn) | reflexivity].
  - destruct (unique_string_node_create_spec p {| pair_hash := d; str := v |}
                (buffer us) s (proj1 Hwf) Hv Hmax)
      as (n & b' & Hcreate & _ & _ & Hhash & _ & Haddr & _).
    rewrite Hcreate in Heq. cbn [mbind result_bind] in Heq.
    eexists; eexists; eexists. split_and!; [exact Hdig | exact Hc | exact Heq | | | |].
    + reflexivity.
    + apply length_insert.
    + intros j Hj. apply list_lookup_insert_ne. congruence.
    + right. exists k. split_and!; [exact Hk | | exact Haddr].
      rewrite list_lookup_insert_eq by exact (lookup_lt_Some _ _ _ Hc).
      destruct n as [hn pn]. cbn [hash buffer_ptr pair_hash] in *. subst hn.
      reflexivity.
Qed.

(** X5.  When the first entry of the bucket of a string has a digest
    smaller than the digest of the string, [unique_strings_add] stores the
    string again, whatever the rest of the chain holds: the new node is
    linked right behind the first entry and its handle is at the former end
    of the used bytes, which grow by the length of the string plus one. *)
Theorem add_behind_smaller_digest (hp : heap) (p : Z) (us : unique_strings_t)
    (tbl : list chain) (m : unique_string_node) (c : chain)
    (v s : list byte) (d : Z) :
  p <> 0 -> hp !! p = Some us -> unique_strings_wf p us ->
  buckets us = Some tbl -> cstring v = Ok s -> digest s = Ok d ->
  tbl !! Z.to_nat (d mod 32) = Some (m :: c) -> hash m < d ->
  capacity (buffer us) + Z.of_nat (length s) + 1025 < size_max ->
  exists h b',
    unique_strings_add p v hp
    = Ok (h, <[p := {| buffer := b';
                       buckets :=
                         Some (<[Z.to_nat (d mod 32) :=
                                  m :: {| hash := d; buffer_ptr := h |} :: c]> tbl)
                    |}]> hp)
    /\ addr h = used (buffer us)
    /\ used b' = used (buffer us) + Z.of_nat (length s) + 1.
Proof.
  intros Hp Hus Hwf Htbl Hv Hdig Hc Hlt Hmax.
  destruct (unique_strings_add_cases hp p us tbl v s Hp Hus Hwf Htbl Hv)
    as (d' & c' & Hdig' & _ & Hc' & Hcases).
  rewrite Hdig in Hdig'. injection Hdig' as <-.
  rewrite Hc in Hc'. injection Hc' as <-.
  destruct Hcases as [(k & n & Hn & [Hm _] & Hbefore & _)|(k & Hk & _ & Hge & Hstop & Heq)].
  - exfalso. destruct k as [|k].
    + injection Hn as <-. cbn [pair_hash] in Hm. lia.
    + destruct (Hbefore 0%nat m ltac:(lia) eq_refl) as [_ Hle]. lia.
  - assert (k = 1%nat) as ->.
    { destruct k as [|[|k]]; [|reflexivity|].
      - destruct Hstop as [Hz|(k' & x & Hz & _)]; discriminate Hz.
      - pose proof (Hge 0%nat m ltac:(lia) eq_refl). lia. }
    destruct (unique_string_node_create_spec p {| pair_hash := d; str := v |}
                (buffer us) s (proj1 Hwf) Hv Hmax)
      as (n & b' & Hcreate & _ & _ & Hhash & _ & Haddr & _ & Hused & _).
    rewrite Hcreate in Heq. cbn [mbind result_bind] in Heq.
    destruct n as [hn pn]. cbn [hash buffer_ptr pair_hash] in *. subst hn.
    exists pn, b'. split_and!; [exact Heq | exact Haddr | exact Hused].
Qed.

(** ** The layout of the arena *)






(** ** Handles and ownership *)

(** X7.  The pointer [unique_strings_get] returns for a handle that
    [unique_strings_add] issued is owned by the interner, right after the
    call and in every state that further calls of [add] and [freeze]
    reach. *)
Theorem owns_issued_handle (hp0 hp1 hp' : heap) (p : Z) (us0 : unique_strings_t)
    (v s : list byte) (h : unique_string_handle_t) (ops : list op) :
  p <> 0 -> hp0 !! p = Some us0 -> unique_strings_wf p us0 ->
  is_building us0 = true -> cstring v = Ok s ->
  capacity (buffer us0) + Z.of_nat (length s) + 1025 + growth ops < size_max ->
  unique_strings_add p v hp0 = Ok (h, hp1) ->
  run p ops hp1 = Ok hp' ->
  exists ptr, unique_strings_get hp' h = Ok ptr
              /\ cstring (view ptr) = Ok s
              /\ unique_strings_owns hp' p ptr = Ok true.
Proof.
  intros Hp Hus Hwf Hb Hv Hmax Hadd Hrun. unfold is_building in Hb.
  destruct (buckets us0) as [tbl|] eqn:Htbl; [|discriminate].
  pose proof (growth_nonneg ops) as Hg.
  destruct (unique_strings_add_spec hp0 p us0 tbl v s Hp Hus Hwf Htbl Hv)
    as (h' & us1 & Hadd' & Hwf1 & _ & _ & Hpar & Hholds & Hcap); [lia|].
  rewrite Hadd' in Hadd. injection Hadd as -> <-.
  destruct (run_spec p ops Hp (<[p := us1]> hp0) us1 (lookup_insert_eq _ _ _) Hwf1)
    as [Hsafe _]; [lia|].
  destruct (Hsafe hp' Hrun) as (us' & Hus' & _ & Hext & _).
  destruct (holds_extends _ _ _ _ Hholds Hext) as (H0 & Hend & Hcs).
  rewrite (unique_strings_get_Some hp' p us' h Hp Hus' Hpar).
  eexists; split_and!; [reflexivity | exact Hcs |].
  unfold unique_strings_owns. rewrite (deref_Some hp' p us' Hp Hus').
  cbn [mbind result_bind address]. f_equal.
  apply andb_true_iff. rewrite Z.leb_le, Z.ltb_lt. lia.
Qed.

(** X8.  [unique_strings_freeze] on an interner that is frozen already runs
    without fault : it finds the bucket pointer null, frees no block, and
    leaves [used], [capacity] and the bytes of the arena as they are. *)
Theorem freeze_twice (hp : heap) (p : Z) (us : unique_strings_t) :
  p <> 0 -> hp !! p = Some us -> unique_strings_wf p us ->
  exists us1 us2 k,
    unique_strings_freeze p hp = Ok (<[p := us1]> hp, k)
    /\ unique_strings_freeze p (<[p := us1]> hp) = Ok (<[p := us2]> hp, 0%nat)
    /\ buckets us2 = None
    /\ used (buffer us2) = used (buffer us1)
    /\ capacity (buffer us2) = capacity (buffer us1)
    /\ bytes (data (buffer us2)) = bytes (data (buffer us1)).
Proof.
  intros Hp Hus Hwf.
  destruct (unique_strings_freeze_spec hp p us Hp Hus Hwf)
    as (us1 & Hf1 & Hwf1 & Hnone1 & Hbuf1).
  exists us1, {| buffer := buffer_compact (buffer us1); buckets := None |},
    (index_blocks us).
  rewrite (unique_strings_freeze_eq (<[p := us1]> hp) p us1 Hp
             (lookup_insert_eq _ _ _) (wf_table_ok p us1 Hwf1)).
  rewrite insert_insert_eq. unfold index_blocks at 2. rewrite Hnone1.
  split_and!; [exact Hf1 | reflexivity | reflexivity | | |]; cbn [buffer].
  - apply buffer_compact_spec, Hwf1.
  - destruct (buffer_compact_spec (buffer us1) (proj1 Hwf1)) as (_ & _ & -> & _).
    rewrite Hbuf1. cbn [used capacity buffer_compact]. reflexivity.
  - destruct (buffer_compact_spec (buffer us1) (proj1 Hwf1)) as (_ & _ & _ & -> & _).
    apply take_ge. destruct Hwf1 as [(Hu & _ & Hl) _].
    rewrite Hbuf1 in *. cbn [used capacity data buffer_compact] in *.
    rewrite length_realloc in *. lia.
Qed.

(** ** Sorted chains *)

(** X10.  In a chain whose digests do not increase, the early stop of the
    probe loses nothing: when an entry of the chain holds the string with
    its digest, [unique_strings_add] returns the handle of such an entry
    and leaves the heap as it is. *)
Theorem add_hits_in_sorted_chain (hp : heap) (p : Z) (us : unique_strings_t)
    (tbl : list chain) (c : chain) (v s : list byte) (d : Z) :
  p <> 0 -> hp !! p = Some us -> unique_strings_wf p us ->
  buckets us = Some tbl -> cstring v = Ok s -> digest s = Ok d ->
  tbl !! Z.to_nat (d mod 32) = Some c -> chain_sorted c ->
  (exists n, n ∈ c /\ hash n = d /\ get_string hp (buffer_ptr n) = Ok s) ->
  exists n, n ∈ c /\ hash n = d /\ get_string hp (buffer_ptr n) = Ok s
            /\ unique_strings_add p v hp = Ok (buffer_ptr n, hp).
Proof.
  intros Hp Hus Hwf Htbl Hv Hdig Hc Hsorted (n0 & Hn0 & Hh0 & Hg0).
  destruct (unique_strings_add_cases hp p us tbl v s Hp Hus Hwf Htbl Hv)
    as (d' & c' & Hdig' & _ & Hc' & Hcases).
  rewrite Hdig in Hdig'. injection Hdig' as <-.
  rewrite Hc in Hc'. injection Hc' as <-.
  assert (Hm0 : entry_matches hp {| pair_hash := d; str := v |} n0).
  { split; [exact Hh0|]. exists s. split; [exact Hg0 | exact Hv]. }
  apply list_elem_of_lookup_1 in Hn0 as [j0 Hj0].
  destruct Hcases as [(k & n & Hn & Hm & _ & Heq)|(k & Hk & Hno & _ & Hstop & _)].
  - exists n. destruct Hm as (Hh & s' & Hg & Hs'). cbn [pair_hash str] in *.
    split_and!; [exact (list_elem_of_lookup_2 _ _ _ Hn) | exact Hh | congruence | exact Heq].
  - exfalso. destruct (decide (j0 < k)%nat) as [Hlt|Hge].
    + exact (Hno j0 n0 Hlt Hj0 Hm0).
    + destruct Hstop as [->|(k' & m & -> & Hm & Hlt)].
      * pose proof (lookup_lt_Some _ _ _ Hj0). lia.
      * pose proof (Hsorted k' j0 m n0 ltac:(lia) Hm Hj0). lia.
Qed.

(** X13.  Adding a string whose digest is not larger than any digest of its
    bucket keeps a sorted chain sorted: the string is found or its node is
    linked at the end of the chain, and no digest of the chain is smaller
    than the digest of the string afterwards either. *)
Theorem add_keeps_chain_sorted (hp : heap) (p : Z) (us : unique_strings_t)
    (tbl : list chain) (c : chain) (v s : list byte) (d : Z) :
  p <> 0 -> hp !! p = Some us -> unique_strings_wf p us ->
  buckets us = Some tbl -> cstring v = Ok s -> digest s = Ok d ->
  tbl !! Z.to_nat (d mod 32) = Some c -> chain_sorted c ->
  (forall m, m ∈ c -> d <= hash m) ->
  capacity (buffer us) + Z.of_nat (length s) + 1025 < size_max ->
  exists h us' tbl' c',
    unique_strings_add p v hp = Ok (h, <[p := us']> hp)
    /\ buckets us' = Some tbl'
    /\ tbl' !! Z.to_nat (d mod 32) = Some c'
    /\ (c' = c \/ c' = c ++ [{| hash := d; buffer_ptr := h |}])
    /\ chain_sorted c'
    /\ (forall m, m ∈ c' -> d <= hash m)
    /\ exists n, n ∈ c' /\ hash n = d /\ buffer_ptr n = h.
Proof.
  intros Hp Hus Hwf Htbl Hv Hdig Hc Hsorted Hge Hmax.
  destruct (unique_strings_add_cases hp p us tbl v s Hp Hus Hwf Htbl Hv)
    as (d' & c' & Hdig' & _ & Hc' & Hcases).
  rewrite Hdig in Hdig'. injection Hdig' as <-.
  rewrite Hc in Hc'. injection Hc' as <-.
  destruct Hcases as [(k & n & Hn & [Hh _] & _ & Heq)|(k & Hk & _ & _ & Hstop & Heq)].
  - exists (buffer_ptr n), us, tbl, c. rewrite (insert_id hp p us Hus).
    split_and!; try done; [left; reflexivity|].
    exists n. split_and!; [exact (list_elem_of_lookup_2 _ _ _ Hn) | exact Hh | reflexivity].
  - assert (k = length c) as ->.
    { destruct Hstop as [->|(k' & m & -> & Hm & Hlt)]; [reflexivity|].
      pose proof (Hge m (list_elem_of_lookup_2 _ _ _ Hm)). lia. }
    rewrite take_ge, drop_ge in Heq by lia.
    destruct (unique_string_node_create_spec p {| pair_hash := d; str := v |}
                (buffer us) s (proj1 Hwf) Hv Hmax)
      as (n & b' & Hcreate & _ & _ & Hhash & _).
    rewrite Hcreate in Heq. cbn [mbind result_bind] in Heq.
    destruct n as [hn pn]. cbn [hash buffer_ptr pair_hash] in *. subst hn.
    set (n := {| hash := d; buffer_ptr := pn |}) in *.
    exists pn. eexists. exists (<[Z.to_nat (d mod 32) := c ++ [n]]> tbl), (c ++ [n]).
    split_and!; [exact Heq | reflexivity | | right; reflexivity | | |].
    + apply list_lookup_insert_eq. exact (lookup_lt_Some _ _ _ Hc).
    + intros i j x y Hij Hx Hy.
      pose proof (lookup_lt_Some _ _ _ Hy) as Hj. rewrite length_app in Hj.
      cbn [length] in Hj. rewrite lookup_app_l in Hx by lia.
      destruct (decide (j < length c)%nat) as [Hlt|Hnlt].
      * rewrite lookup_app_l in Hy by exact Hlt. exact (Hsorted i j x y Hij Hx Hy).
      * rewrite lookup_app_r in Hy by lia.
        replace (j - length c)%nat with 0%nat in Hy by lia. injection Hy as <-.
        exact (Hge x (list_elem_of_lookup_2 _ _ _ Hx)).
    + intros m Hm. apply elem_of_app in Hm as [Hm|Hm]; [exact (Hge m Hm)|].
      apply list_elem_of_singleton in Hm as ->. cbn [hash n]. lia.
    + exists n. split_and!; [|reflexivity|reflexivity].
      apply elem_of_app; right. apply list_elem_of_singleton. reflexivity.
Qed.

End Properties.

(** * The examples *)

Lemma example_wf (ops : list op) :
  growth ops < size_max ->
  run 4096 ops (unique_strings_create 4096 ∅) = Ok (example_state ops) ->
  example_state ops !! 4096 = Some (example_us ops) ->
  unique_strings_wf 4096 (example_us ops).
Proof.
  intros Hmax Hrun Hus.
  exact (run_wf 4096 ∅ (example_state ops) ops (example_us ops) ltac:(lia) Hmax Hrun Hus).
Qed.

(** The code grows the block when [used + size] equals [capacity] (1000
    bytes used of 1024 and 24 asked for), and by 2048 bytes for a request
    of 1024. *)
Lemma buffer_alloc_grows_early :
  (used example_buffer + 24 >? capacity example_buffer) = false
  /\ capacity (fst (buffer_alloc 4096 example_buffer 24)) = 2048
  /\ capacity (fst (buffer_alloc 4096 new_buffer 1024)) = 2048
  /\ capacity new_buffer + 1024 * ((1024 + 1023) / 1024) = 1024.
Proof. vm_compute. repeat split. Qed.

Lemma buffer_alloc_grows_example :
  let r := buffer_alloc 4096 example_buffer 24 in
  addr (snd r) = used example_buffer
  /\ used (fst r) = used example_buffer + 24
  /\ (capacity example_buffer <= used example_buffer + 24 ->
      capacity (fst r) = capacity example_buffer + 1024 * (24 / 1024 + 1)
      /\ data (fst r) = realloc (data example_buffer) (capacity (fst r)))
  /\ (used example_buffer + 24 < capacity example_buffer ->
      capacity (fst r) = capacity example_buffer
      /\ data (fst r) = data example_buffer)
  /\ take (length (bytes (data example_buffer))) (bytes (data (fst r)))
     = bytes (data example_buffer).
Proof.
  apply (buffer_alloc_grows 4096 example_buffer 24).
  - unfold buffer_wf, size_max. cbn [used capacity data bytes example_buffer].
    rewrite length_replicate. lia.
  - lia.
  - unfold size_max. cbn [capacity example_buffer]. lia.
Defined.

(** On a frozen interner [add] faults, so [get(add(s))] reads nothing. *)
Lemma frozen_roundtrip_faults : example_frozen_roundtrip = Fault NullDeref.
Proof. vm_compute. reflexivity. Qed.

Lemma add_get_roundtrip_empty :
  exists h hp',
    unique_strings_add 4096 [x00]
                       (unique_strings_create 4096 ∅) = Ok (h, hp')
    /\ get_string hp' h = Ok [].
Proof.
  apply (add_get_roundtrip
           (unique_strings_create 4096 ∅) 4096 calloc_unique_strings_t [x00] []).
  - lia.
  - apply lookup_insert_eq.
  - apply create_wf.
  - reflexivity.
  - reflexivity.
  - vm_compute. reflexivity.
Defined.

(** After [add("a")], the calls [freeze()] and [add("b")] reach no state in
    which the handle of "a" could be read: the [add] faults. *)
Lemma handles_lost_after_freeze :
  example_get_after_freeze_add = Fault NullDeref.
Proof. vm_compute. reflexivity. Qed.

Lemma handles_stable_example :
  (get_string (snd example_added) (fst example_added) = Ok [x61]
   /\ (forall hp',
         run 4096 example_ops (snd example_added) = Ok hp' ->
         get_string hp' (fst example_added) = Ok [x61])
   /\ (terminated example_ops -> lifecycle true example_ops = true ->
       exists hp', run 4096 example_ops (snd example_added) = Ok hp')
   /\ (terminated example_ops -> lifecycle true example_ops = false ->
       run 4096 example_ops (snd example_added) = Fault NullDeref))
  /\ (get_string (snd example_added) (fst example_added) = Ok [x61]
      /\ (forall hp',
            run 4096 example_freeze_add (snd example_added) = Ok hp' ->
            get_string hp' (fst example_added) = Ok [x61])
      /\ (terminated example_freeze_add ->
          lifecycle true example_freeze_add = true ->
          exists hp', run 4096 example_freeze_add (snd example_added) = Ok hp')
      /\ (terminated example_freeze_add ->
          lifecycle true example_freeze_add = false ->
          run 4096 example_freeze_add (snd example_added) = Fault NullDeref))
  /\ lifecycle true example_ops = true
  /\ lifecycle true example_freeze_add = false.
Proof.
  split; [|split; [|split; reflexivity]].
  - apply (handles_stable
             (unique_strings_create 4096 ∅) (snd example_added) 4096
             calloc_unique_strings_t [x61; x00] [x61] (fst example_added)
             example_ops).
    + lia.
    + apply lookup_insert_eq.
    + apply create_wf.
    + reflexivity.
    + reflexivity.
    + vm_compute. reflexivity.
    + vm_compute. reflexivity.
  - apply (handles_stable
             (unique_strings_create 4096 ∅) (snd example_added) 4096
             calloc_unique_strings_t [x61; x00] [x61] (fst example_added)
             example_freeze_add).
    + lia.
    + apply lookup_insert_eq.
    + apply create_wf.
    + reflexivity.
    + reflexivity.
    + vm_compute. reflexivity.
    + vm_compute. reflexivity.
Defined.

Lemma freeze_preserves_example :
  (exists us',
      unique_strings_freeze 4096 (example_state example_three)
      = Ok (<[4096 := us']> (example_state example_three),
            index_blocks (example_us example_three))
      /\ buckets us' = None
      /\ used (buffer us') = used (buffer (example_us example_three))
      /\ capacity (buffer us') = used (buffer (example_us example_three))
      /\ bytes (data (buffer us'))
         = take (Z.to_nat (used (buffer (example_us example_three))))
                (bytes (data (buffer (example_us example_three))))
      /\ forall h s, parent h = 4096 ->
           holds (buffer (example_us example_three)) (addr h) s ->
           get_string (example_state example_three) h = Ok s
           /\ get_string (<[4096 := us']> (example_state example_three)) h = Ok s)
  /\ index_blocks (example_us example_three) = 4%nat
  /\ used (buffer (example_us example_three)) = 6
  /\ capacity (buffer (example_us example_three)) = 1024
  /\ holds (buffer (example_us example_three)) 2 [x63].
Proof.
  split; [|split; [|split; [|split]]].
  - apply (freeze_preserves (example_state example_three) 4096
             (example_us example_three)).
    + lia.
    + vm_compute. reflexivity.
    + apply example_wf; vm_compute; reflexivity.
  - vm_compute. reflexivity.
  - vm_compute. reflexivity.
  - vm_compute. reflexivity.
  - unfold holds. split_and!.
    + lia.
    + vm_compute. discriminate.
    + vm_compute. reflexivity.
Defined.

(** After [freeze] the second [add("a")] returns no handle. *)
Lemma add_freeze_add_faults : example_add_freeze_add = Fault NullDeref.
Proof. vm_compute. reflexivity. Qed.

Lemma add_after_freeze_example :
  exists h hp1 hp2 k,
    unique_strings_add 4096 [x61; x00]
                       (unique_strings_create 4096 ∅) = Ok (h, hp1)
    /\ unique_strings_freeze 4096 hp1
       = Ok (hp2, k)
    /\ get_string hp2 h = Ok [x61]
    /\ forall v' s', cstring v' = Ok s' ->
         unique_strings_add 4096 v' hp2
         = Fault NullDeref.
Proof.
  apply (add_after_freeze_faults
           (unique_strings_create 4096 ∅) 4096 calloc_unique_strings_t
           [x61; x00] [x61]).
  - lia.
  - apply lookup_insert_eq.
  - apply create_wf.
  - reflexivity.
  - reflexivity.
  - vm_compute. reflexivity.
Defined.

Lemma digest_deterministic_example :
  exists d, is_u32 d /\ digest [x61; x62] = Ok d
            /\ _string_hash_pair_prepare [x61; x62; x00; xff; x07]
               = Ok {| pair_hash := d; str := [x61; x62; x00; xff; x07] |}
            /\ _string_hash_pair_prepare [x61; x62; x00]
               = Ok {| pair_hash := d; str := [x61; x62; x00] |}.
Proof.
  apply (digest_deterministic [x61; x62; x00; xff; x07] [x61; x62; x00] [x61; x62]);
    reflexivity.
Defined.

Lemma owns_example :
  (exists b,
      unique_strings_owns example_two 4096 {| address := 65537; view := [x00] |}
      = Ok b
      /\ (b = true <->
          exists off, 0 <= off < used (buffer (example_interner 65536))
                      /\ address {| address := 65537; view := [x00] |}
                         = base (data (buffer (example_interner 65536))) + off))
  /\ (exists s2,
         unique_strings_get example_two {| addr := 0; parent := 8192 |} = Ok s2
         /\ unique_strings_owns example_two 4096 s2 = Ok false).
Proof.
  apply (owns_iff_in_arena example_two 4096 8192 (example_interner 65536)
           (example_interner 131072) {| address := 65537; view := [x00] |}
           {| addr := 0; parent := 8192 |}).
  - lia.
  - reflexivity.
  - lia.
  - lia.
  - reflexivity.
  - reflexivity.
  - cbn. lia.
  - unfold buffer_wf, size_max. cbn. lia.
  - unfold buffer_wf, size_max. cbn. lia.
  - cbn. lia.
Defined.

(** The probe for "a" in the chain of "c" and "a" goes past "c" and hits
    the second entry; the probe for "c" in the chain of "a" and "c" stops at
    "a", whose digest is the smaller one. *)
Lemma find_node_walk_example :
  (exists (c : list unique_string_node) (found : bool) (node : option nat)
           (visited : nat),
      example_table [Add [x63; x00]; Add [x61; x00]] !! Z.to_nat (pair_hash example_query_a mod 32) = Some c
      /\ _unique_strings_find_node (example_state [Add [x63; x00]; Add [x61; x00]]) 4096 example_query_a
         = Ok (found, node)
      /\ (visited <= length c)%nat
      /\ (visited = 0%nat <-> c = [])
      /\ node = match visited with O => None | S k => Some k end
      /\ (forall j n, (S j < visited)%nat -> c !! j = Some n ->
            ~ entry_matches (example_state [Add [x63; x00]; Add [x61; x00]]) example_query_a n
            /\ pair_hash example_query_a <= hash n)
      /\ (found = true <->
            exists j n, (j < visited)%nat /\ c !! j = Some n
                        /\ entry_matches (example_state [Add [x63; x00]; Add [x61; x00]]) example_query_a n)
      /\ (found = true ->
            exists k n, node = Some k /\ c !! k = Some n
                        /\ entry_matches (example_state [Add [x63; x00]; Add [x61; x00]]) example_query_a n)
      /\ (found = false ->
            visited = length c
            \/ exists k n, node = Some k /\ c !! k = Some n
                           /\ hash n < pair_hash example_query_a))
  /\ (exists (c : list unique_string_node) (found : bool) (node : option nat)
           (visited : nat),
      example_table [Add [x61; x00]; Add [x63; x00]] !! Z.to_nat (pair_hash example_query_c mod 32) = Some c
      /\ _unique_strings_find_node (example_state [Add [x61; x00]; Add [x63; x00]]) 4096 example_query_c
         = Ok (found, node)
      /\ (visited <= length c)%nat
      /\ (visited = 0%nat <-> c = [])
      /\ node = match visited with O => None | S k => Some k end
      /\ (forall j n, (S j < visited)%nat -> c !! j = Some n ->
            ~ entry_matches (example_state [Add [x61; x00]; Add [x63; x00]]) example_query_c n
            /\ pair_hash example_query_c <= hash n)
      /\ (found = true <->
            exists j n, (j < visited)%nat /\ c !! j = Some n
                        /\ entry_matches (example_state [Add [x61; x00]; Add [x63; x00]]) example_query_c n)
      /\ (found = true ->
            exists k n, node = Some k /\ c !! k = Some n
                        /\ entry_matches (example_state [Add [x61; x00]; Add [x63; x00]]) example_query_c n)
      /\ (found = false ->
            visited = length c
            \/ exists k n, node = Some k /\ c !! k = Some n
                           /\ hash n < pair_hash example_query_c))
  /\ example_table [Add [x63; x00]; Add [x61; x00]] !! 18%nat
     = Some [example_node_c; example_node_a2]
  /\ _unique_strings_find_node (example_state [Add [x63; x00]; Add [x61; x00]]) 4096 example_query_a
     = Ok (true, Some 1%nat)
  /\ example_table [Add [x61; x00]; Add [x63; x00]] !! 18%nat
     = Some [example_node_a; example_node_c2]
  /\ _unique_strings_find_node (example_state [Add [x61; x00]; Add [x63; x00]]) 4096 example_query_c
     = Ok (false, Some 0%nat).
Proof.
  split; [|split; [|split; [|split; [|split]]]].
  - apply (find_node_walk (example_state [Add [x63; x00]; Add [x61; x00]]) 4096
             (example_us [Add [x63; x00]; Add [x61; x00]]) (example_table [Add [x63; x00]; Add [x61; x00]])
             [x61; x00] [x61] example_query_a).
    + lia.
    + vm_compute. reflexivity.
    + apply example_wf; vm_compute; reflexivity.
    + vm_compute. reflexivity.
    + reflexivity.
    + vm_compute. reflexivity.
  - apply (find_node_walk (example_state [Add [x61; x00]; Add [x63; x00]]) 4096
             (example_us [Add [x61; x00]; Add [x63; x00]]) (example_table [Add [x61; x00]; Add [x63; x00]])
             [x63; x00] [x63] example_query_c).
    + lia.
    + vm_compute. reflexivity.
    + apply example_wf; vm_compute; reflexivity.
    + vm_compute. reflexivity.
    + reflexivity.
    + vm_compute. reflexivity.
  - vm_compute. reflexivity.
  - vm_compute. reflexivity.
  - vm_compute. reflexivity.
  - vm_compute. reflexivity.
Defined.

Lemma destroy_safe_example :
  (unique_strings_destroy 0 (example_state example_three)
   = Ok (example_state example_three, 0%nat)
   /\ unique_strings_destroy 4096 (example_state example_three)
      = Ok (delete 4096 (example_state example_three),
            S (match buckets (example_us example_three) with
               | Some tbl => S (length (concat tbl))
               | None => 0
               end
               + (if (base (data (buffer (example_us example_three))) =? 0)%Z
                  then 0 else 1)))
   /\ _unique_string_free_buckets (example_us example_three)
      = Ok ({| buffer := buffer (example_us example_three); buckets := None |},
            index_blocks (example_us example_three))
   /\ exists us' k,
        unique_strings_freeze 4096 (example_state example_three)
        = Ok (<[4096 := us']> (example_state example_three), k)
        /\ buckets us' = None
        /\ _unique_string_free_buckets us' = Ok (us', 0%nat)
        /\ unique_strings_destroy 4096 (<[4096 := us']> (example_state example_three))
           = Ok (delete 4096 (example_state example_three),
                 S (if (base (data (buffer us')) =? 0)%Z then 0 else 1)))
  /\ unique_strings_destroy 4096 (example_state example_three) = Ok (∅, 6%nat)
  /\ index_blocks (example_us example_three) = 4%nat
  /\ base (data (buffer (example_us example_three))) = 65536.
Proof.
  split; [|split; [|split]].
  - apply (destroy_safe (example_state example_three) 4096
             (example_us example_three)).
    + lia.
    + vm_compute. reflexivity.
    + apply wf_table_ok with (p := 4096).
      apply example_wf; vm_compute; reflexivity.
  - vm_compute. reflexivity.
  - vm_compute. reflexivity.
  - vm_compute. reflexivity.
Defined.


Lemma reachable_invariant_example :
  exists us,
    example_reached !! 4096 = Some us
    /\ 0 <= used (buffer us) <= capacity (buffer us)
    /\ forall tbl c n, buckets us = Some tbl -> c ∈ tbl -> n ∈ c ->
         parent (buffer_ptr n) = 4096
         /\ exists s, cstring (drop (Z.to_nat (addr (buffer_ptr n)))
                                    (bytes (data (buffer us)))) = Ok s
                      /\ addr (buffer_ptr n) + Z.of_nat (length s) + 1
                         <= used (buffer us).
Proof.
  apply (reachable_invariant 4096 ∅ example_reached example_adds).
  - lia.
  - vm_compute. reflexivity.
  - vm_compute. reflexivity.
Defined.

Lemma distinct_handles_example :
  addr (fst example_added) = 0
  /\ addr (fst example_added_c) = 2005
  /\ fst example_added <> fst example_added_c.
Proof.
  split; [vm_compute; reflexivity|]. split; [vm_compute; reflexivity|].
  apply (distinct_strings_distinct_handles 4096 (unique_strings_create 4096 ∅)
           (snd example_added) example_later (snd example_added_c)
           calloc_unique_strings_t [x61; x00] [x63; x00] [x61] [x63]
           (fst example_added) (fst example_added_c) example_adds).
  - lia.
  - apply lookup_insert_eq.
  - apply create_wf.
  - reflexivity.
  - reflexivity.
  - reflexivity.
  - discriminate.
  - vm_compute. reflexivity.
  - vm_compute. reflexivity.
  - vm_compute. reflexivity.
  - vm_compute. reflexivity.
Defined.

Lemma add_twice_same_handle_example :
  exists h hp1,
    unique_strings_add 4096 [x61; x00] (example_state [Add [x63; x00]])
    = Ok (h, hp1)
    /\ unique_strings_add 4096 [x61; x00] hp1 = Ok (h, hp1)
    /\ get_string hp1 h = Ok [x61].
Proof.
  apply (add_twice_same_handle (example_state [Add [x63; x00]]) 4096
           (example_us [Add [x63; x00]]) (example_table [Add [x63; x00]])
           [example_node_c] [x61; x00] [x61] 3270753234).
  - lia.
  - vm_compute. reflexivity.
  - apply example_wf; vm_compute; reflexivity.
  - vm_compute. reflexivity.
  - reflexivity.
  - vm_compute. reflexivity.
  - vm_compute. reflexivity.
  - intros m Hm. apply list_elem_of_singleton in Hm. subst m. vm_compute. discriminate.
  - vm_compute. reflexivity.
Defined.

Lemma add_links_one_entry_example :
  exists d c h us' tbl',
    digest [x63] = Ok d
    /\ example_table [Add [x61; x00]] !! Z.to_nat (d mod 32) = Some c
    /\ unique_strings_add 4096 [x63; x00] (example_state [Add [x61; x00]])
       = Ok (h, <[4096 := us']> (example_state [Add [x61; x00]]))
    /\ buckets us' = Some tbl'
    /\ length tbl' = length (example_table [Add [x61; x00]])
    /\ (forall j, j <> Z.to_nat (d mod 32) ->
          tbl' !! j = example_table [Add [x61; x00]] !! j)
    /\ ((tbl' = example_table [Add [x61; x00]]
         /\ buffer us' = buffer (example_us [Add [x61; x00]])
         /\ exists n, n ∈ c /\ buffer_ptr n = h)
        \/ (exists k,
              (k <= length c)%nat
              /\ tbl' !! Z.to_nat (d mod 32)
                 = Some (take k c ++ {| hash := d; buffer_ptr := h |} :: drop k c)
              /\ addr h = used (buffer (example_us [Add [x61; x00]])))).
Proof.
  apply (add_links_one_entry (example_state [Add [x61; x00]]) 4096
           (example_us [Add [x61; x00]]) (example_table [Add [x61; x00]])
           [x63; x00] [x63]).
  - lia.
  - vm_compute. reflexivity.
  - apply example_wf; vm_compute; reflexivity.
  - vm_compute. reflexivity.
  - reflexivity.
  - vm_compute. reflexivity.
Defined.

Lemma add_behind_smaller_digest_example :
  exists h b',
    unique_strings_add 4096 [x63; x00] (example_state [Add [x61; x00]])
    = Ok (h, <[4096 := {| buffer := b';
                          buckets :=
                            Some (<[Z.to_nat (3852019730 mod 32) :=
                                     example_node_a
                                     :: {| hash := 3852019730; buffer_ptr := h |}
                                     :: []]> (example_table [Add [x61; x00]]))
                       |}]> (example_state [Add [x61; x00]]))
    /\ addr h = used (buffer (example_us [Add [x61; x00]]))
    /\ used b' = used (buffer (example_us [Add [x61; x00]]))
                 + Z.of_nat (length [x63]) + 1.
Proof.
  apply (add_behind_smaller_digest (example_state [Add [x61; x00]]) 4096
           (example_us [Add [x61; x00]]) (example_table [Add [x61; x00]])
           example_node_a [] [x63; x00] [x63] 3852019730).
  - lia.
  - vm_compute. reflexivity.
  - apply example_wf; vm_compute; reflexivity.
  - vm_compute. reflexivity.
  - reflexivity.
  - vm_compute. reflexivity.
  - vm_compute. reflexivity.
  - vm_compute. reflexivity.
  - vm_compute. reflexivity.
Defined.


Lemma owns_issued_handle_example :
  exists ptr, unique_strings_get example_later (fst example_added) = Ok ptr
              /\ cstring (view ptr) = Ok [x61]
              /\ unique_strings_owns example_later 4096 ptr = Ok true.
Proof.
  apply (owns_issued_handle (unique_strings_create 4096 ∅) (snd example_added)
           example_later 4096 calloc_unique_strings_t [x61; x00] [x61]
           (fst example_added) example_adds).
  - lia.
  - apply lookup_insert_eq.
  - apply create_wf.
  - reflexivity.
  - reflexivity.
  - vm_compute. reflexivity.
  - vm_compute. reflexivity.
  - vm_compute. reflexivity.
Defined.

Lemma freeze_twice_example :
  exists us1 us2 k,
    unique_strings_freeze 4096 (example_state example_adds)
    = Ok (<[4096 := us1]> (example_state example_adds), k)
    /\ unique_strings_freeze 4096 (<[4096 := us1]> (example_state example_adds))
       = Ok (<[4096 := us2]> (example_state example_adds), 0%nat)
    /\ buckets us2 = None
    /\ used (buffer us2) = used (buffer us1)
    /\ capacity (buffer us2) = capacity (buffer us1)
    /\ bytes (data (buffer us2)) = bytes (data (buffer us1)).
Proof.
  apply (freeze_twice (example_state example_adds) 4096 (example_us example_adds)).
  - lia.
  - vm_compute. reflexivity.
  - apply example_wf; vm_compute; reflexivity.
Defined.

Lemma hash_murmur2_reads_len_example :
  (5 <= Z.of_nat (length [x61; x62; x63; x64; x65]) ->
   exists d, is_u32 d
             /\ forall data', 5 <= Z.of_nat (length data') ->
                  take (Z.to_nat 5) data'
                  = take (Z.to_nat 5) [x61; x62; x63; x64; x65] ->
                  hash_murmur2 data' 5 MURMUR_SEED = Ok d)
  /\ (Z.of_nat (length [x61; x62; x63; x64; x65]) < 5 ->
      hash_murmur2 [x61; x62; x63; x64; x65] 5 MURMUR_SEED = Fault OutOfBounds).
Proof.
  apply (hash_murmur2_reads_len [x61; x62; x63; x64; x65] 5 MURMUR_SEED).
  unfold is_u32, MURMUR_SEED. lia.
Defined.

Lemma add_hits_in_sorted_chain_example :
  exists n,
    n ∈ [example_node_c; example_node_a2]
    /\ hash n = 3270753234
    /\ get_string (example_state [Add [x63; x00]; Add [x61; x00]]) (buffer_ptr n)
       = Ok [x61]
    /\ unique_strings_add 4096 [x61; x00]
         (example_state [Add [x63; x00]; Add [x61; x00]])
       = Ok (buffer_ptr n, example_state [Add [x63; x00]; Add [x61; x00]]).
Proof.
  apply (add_hits_in_sorted_chain (example_state [Add [x63; x00]; Add [x61; x00]])
           4096 (example_us [Add [x63; x00]; Add [x61; x00]])
           (example_table [Add [x63; x00]; Add [x61; x00]])
           [example_node_c; example_node_a2] [x61; x00] [x61] 3270753234).
  - lia.
  - vm_compute. reflexivity.
  - apply example_wf; vm_compute; reflexivity.
  - vm_compute. reflexivity.
  - reflexivity.
  - vm_compute. reflexivity.
  - vm_compute. reflexivity.
  - intros i j x y Hij Hx Hy.
    destruct i as [|[|i]], j as [|[|j]]; try lia; try discriminate.
    injection Hx as <-. injection Hy as <-. vm_compute. discriminate.
  - exists example_node_a2. split_and!.
    + apply elem_of_cons; right. apply list_elem_of_singleton. reflexivity.
    + reflexivity.
    + vm_compute. reflexivity.
Defined.

Lemma add_keeps_chain_sorted_example :
  exists h us' tbl' c',
    unique_strings_add 4096 [x61; x00] (example_state [Add [x63; x00]])
    = Ok (h, <[4096 := us']> (example_state [Add [x63; x00]]))
    /\ buckets us' = Some tbl'
    /\ tbl' !! Z.to_nat (3270753234 mod 32) = Some c'
    /\ (c' = [example_node_c]
        \/ c' = [example_node_c] ++ [{| hash := 3270753234; buffer_ptr := h |}])
    /\ chain_sorted c'
    /\ (forall m, m ∈ c' -> 3270753234 <= hash m)
    /\ exists n, n ∈ c' /\ hash n = 3270753234 /\ buffer_ptr n = h.
Proof.
  apply (add_keeps_chain_sorted (example_state [Add [x63; x00]]) 4096
           (example_us [Add [x63; x00]]) (example_table [Add [x63; x00]])
           [example_node_c] [x61; x00] [x61] 3270753234).
  - lia.
  - vm_compute. reflexivity.
  - apply example_wf; vm_compute; reflexivity.
  - vm_compute. reflexivity.
  - reflexivity.
  - vm_compute. reflexivity.
  - vm_compute. reflexivity.
  - intros i j x y Hij Hx Hy.
    destruct i as [|i], j as [|j]; try lia; discriminate.
  - intros m Hm. apply list_elem_of_singleton in Hm. subst m. vm_compute. discriminate.
  - vm_compute. reflexivity.
Defined.
